(** * Overlay widget and dev server: a shallow embedding and its properties

    The development follows [src/public/overlay-widget.js] (the embeddable
    catalog-and-checkout widget) and [src/dev-server.js] (the static file
    handler of the relay service).

    Conventions of the embedding:
    - JS strings are [string] (byte strings); the characters that matter to
      the code under study are ASCII.  [toUpperCase] acts on the ASCII
      letters and leaves every other byte alone.
    - JSON bodies are values of [JS.json]; a property read that yields
      [undefined] is [None].
    - JS numbers held by the selection map are exact rationals [Q]; the
      rounding of IEEE doubles is not modelled (the comparisons, [Math.min]
      and [Math.max] used by the handlers are exact on doubles as well).
    - The widget runs on one thread; every [await] is a suspension point.
      An outstanding asynchronous operation is a [Widget.task] in the
      [pending] list of the state, and its completion is an event. *)

From Stdlib Require Import ZArith QArith Qminmax Lia Lqa Bool Ascii DecimalString.
From stdpp Require Import gmap strings list fin_maps.

Set Warnings "-register-all".
Local Open Scope Z_scope.

(** ** JavaScript values, truthiness, exceptions *)

Module JS.

(** A value produced by [JSON.parse] / [resp.json()].  Numbers are the
    integer-valued ones. *)
Inductive json : Type :=
| JNull
| JBool (b : bool)
| JNum (n : Z)
| JStr (s : string)
| JArr (items : list json)
| JObj (fields : list (string * json)).

(** ToBoolean. *)
Definition truthy (v : json) : bool :=
  match v with
  | JNull => false
  | JBool b => b
  | JNum n => negb (n =? 0)
  | JStr s => negb (String.eqb s "")
  | JArr _ => true
  | JObj _ => true
  end.

(** ToBoolean of a value that may be [undefined]. *)
Definition truthy_opt (v : option json) : bool :=
  match v with
  | Some x => truthy x
  | None => false
  end.

Fixpoint assoc (k : string) (fields : list (string * json)) : option json :=
  match fields with
  | [] => None
  | (k', v) :: rest => if String.eqb k k' then Some v else assoc k rest
  end.

(** [v.k] for a [v] that is neither [null] nor [undefined]: own property
    of an object, [undefined] on every other value.  [JSON.parse] keeps the
    last of duplicated keys, hence the reversal. *)
Definition get (v : json) (k : string) : option json :=
  match v with
  | JObj fields => assoc k (rev fields)
  | _ => None
  end.

Definition isArray (v : option json) : bool :=
  match v with
  | Some (JArr _) => true
  | _ => false
  end.

Definition Z_to_string (n : Z) : string :=
  NilZero.string_of_int (Z.to_int n).

Fixpoint join (sep : string) (parts : list string) : string :=
  match parts with
  | [] => ""
  | [p] => p
  | p :: rest => p +:+ sep +:+ join sep rest
  end.

(** ToString, as used by [String(x)], template literals and [new Error(x)]. *)
Fixpoint toStr (v : json) : string :=
  match v with
  | JNull => "null"
  | JBool true => "true"
  | JBool false => "false"
  | JNum n => Z_to_string n
  | JStr s => s
  | JArr items =>
      join "," (map (fun x => match x with JNull => "" | _ => toStr x end) items)
  | JObj _ => "[object Object]"
  end.

(** The outcome of a computation that may throw; the payload of [Throw] is
    the [message] of the thrown [Error]. *)
Inductive result (A : Type) : Type :=
| Return (a : A)
| Throw (message : string).
Arguments Return {A} a.
Arguments Throw {A} message.

Definition bind {A B} (m : result A) (f : A -> result B) : result B :=
  match m with
  | Return a => f a
  | Throw e => Throw e
  end.

(** [try { m } catch (e) { handler e }]. *)
Definition tryCatch {A} (m : result A) (handler : string -> result A) : result A :=
  match m with
  | Return a => Return a
  | Throw e => handler e
  end.

(** [new Error(v)] for a JSON value [v]: the message is [String(v)]. *)
Definition Error (v : json) : string := toStr v.

(** [e && e.message ? e.message : 'UNKNOWN'] at the catch sites. *)
Definition message_or_UNKNOWN (message : string) : string :=
  if String.eqb message "" then "UNKNOWN" else message.

End JS.

Notation "'let!' x ':=' m 'in' k" := (JS.bind m (fun x => k))
  (at level 10, x name, m at level 100, k at level 200).

(** ** String helpers of the widget *)

Module Helpers.

(** [s.replace(/c/g, r)] for a single character [c]. *)
Fixpoint replaceAll (c : ascii) (r : string) (s : string) : string :=
  match s with
  | EmptyString => EmptyString
  | String a rest =>
      if Ascii.eqb a c then r +:+ replaceAll c r rest
      else String a (replaceAll c r rest)
  end.

(** [s.startsWith(p)]. *)
Fixpoint startsWith (p s : string) : bool :=
  match p with
  | EmptyString => true
  | String a p' =>
      match s with
      | String b s' => Ascii.eqb a b && startsWith p' s'
      | EmptyString => false
      end
  end.

(** [String(str || '')] for a string or absent [str]. *)
Definition string_or_empty (str : option string) : string :=
  match str with
  | Some s => s
  | None => ""
  end.

(** The double quote character (code 34). *)
Definition dquote : ascii := Eval cbv in ascii_of_nat 34.

Definition escapeHtml (str : option string) : string :=
  replaceAll "'" "&#039;"
    (replaceAll dquote "&quot;"
      (replaceAll ">" "&gt;"
        (replaceAll "<" "&lt;"
          (replaceAll "&" "&amp;" (string_or_empty str))))).

Definition escapeAttr (str : option string) : string :=
  replaceAll dquote "&quot;" (escapeHtml str).

Definition is_lower (c : ascii) : bool :=
  (97 <=? nat_of_ascii c)%nat && (nat_of_ascii c <=? 122)%nat.
Definition is_upper (c : ascii) : bool :=
  (65 <=? nat_of_ascii c)%nat && (nat_of_ascii c <=? 90)%nat.
Definition is_digit (c : ascii) : bool :=
  (48 <=? nat_of_ascii c)%nat && (nat_of_ascii c <=? 57)%nat.

Definition upper_char (c : ascii) : ascii :=
  if is_lower c then ascii_of_nat (nat_of_ascii c - 32) else c.

Fixpoint map_string (f : ascii -> ascii) (s : string) : string :=
  match s with
  | EmptyString => EmptyString
  | String a rest => String (f a) (map_string f rest)
  end.

Definition toUpperCase (s : string) : string := map_string upper_char s.

(** The character class [A-Z0-9_]. *)
Definition word_char (c : ascii) : bool :=
  is_upper c || is_digit c || Ascii.eqb c "_".

(** [s.replace(/[^A-Z0-9_]/g, '_')]. *)
Definition replace_non_word (s : string) : string :=
  map_string (fun c => if word_char c then c else "_"%char) s.

(** White space of the ASCII range: TAB, LF, VT, FF, CR, SP (the white
    space that [trim] and [Number] strip beyond ASCII is not modelled). *)
Definition is_space (c : ascii) : bool :=
  let n := nat_of_ascii c in
  ((9 <=? n)%nat && (n <=? 13)%nat) || (n =? 32)%nat.

Fixpoint trimStart (s : string) : string :=
  match s with
  | EmptyString => EmptyString
  | String c rest => if is_space c then trimStart rest else s
  end.

Fixpoint trimEnd (s : string) : string :=
  match s with
  | EmptyString => EmptyString
  | String c rest =>
      let rest' := trimEnd rest in
      if is_space c && String.eqb rest' "" then EmptyString else String c rest'
  end.

Definition trim (s : string) : string := trimEnd (trimStart s).

Definition known : list string :=
  ["NO_ITEMS"; "OFFER_NOT_FOUND"; "QTY_LIMIT"; "CURRENCY_MISMATCH";
   "INVALID_MERCHANT"; "UNAUTHORISED"; "NETWORK"; "REQUEST_FAILED";
   "PARSE"; "BAD_RESPONSE"].

Definition includes (l : list string) (msg : option string) : bool :=
  match msg with
  | Some s => existsb (String.eqb s) l
  | None => false
  end.

(** [msg || 'UNKNOWN'] for a string or absent [msg]. *)
Definition or_UNKNOWN (msg : option string) : string :=
  match msg with
  | Some s => if String.eqb s "" then "UNKNOWN" else s
  | None => "UNKNOWN"
  end.

Definition sanitizeErrorCode (msg : option string) : string :=
  if includes known msg then string_or_empty msg
  else
    let up := replace_non_word (toUpperCase (or_UNKNOWN msg)) in
    if String.eqb up "" then "UNKNOWN" else up.

End Helpers.

(** ** [Number(string)] *)

Module JSNumber.

(** A JS number: the value is exact; [-0] is [Fin 0]. *)
Inductive jsnum : Type :=
| NaN
| Inf (negative : bool)
| Fin (q : Q).

(** The value of a digit in the given base, letters for the bases above 10. *)
Definition digit_of (base : Z) (c : ascii) : option Z :=
  let n := Z.of_nat (nat_of_ascii c) in
  let d :=
    if (48 <=? n) && (n <=? 57) then Some (n - 48)
    else if (97 <=? n) && (n <=? 102) then Some (n - 87)
    else if (65 <=? n) && (n <=? 70) then Some (n - 55)
    else None in
  match d with
  | Some v => if v <? base then Some v else None
  | None => None
  end.

(** The longest prefix of decimal digits and what follows it. *)
Fixpoint span_digits (s : string) : string * string :=
  match s with
  | EmptyString => (EmptyString, EmptyString)
  | String c rest =>
      match digit_of 10 c with
      | Some _ => let (ds, r) := span_digits rest in (String c ds, r)
      | None => (EmptyString, s)
      end
  end.

(** The value of a string made of digits only; [None] on any other
    character. *)
Fixpoint digits_value (base : Z) (acc : Z) (s : string) : option Z :=
  match s with
  | EmptyString => Some acc
  | String c rest =>
      match digit_of base c with
      | Some d => digits_value base (base * acc + d) rest
      | None => None
      end
  end.

Definition nonempty_digits (base : Z) (s : string) : option Z :=
  if String.eqb s "" then None else digits_value base 0 s.

(** [ExponentPart]: [e] or [E], an optional sign, at least one digit. *)
Definition exponent_part (s : string) : option Z :=
  match s with
  | String c rest =>
      if Ascii.eqb c "e" || Ascii.eqb c "E" then
        match rest with
        | String "+" ds => nonempty_digits 10 ds
        | String "-" ds => option_map Z.opp (nonempty_digits 10 ds)
        | _ => nonempty_digits 10 rest
        end
      else None
  | EmptyString => None
  end.

(** [StrUnsignedDecimalLiteral] other than [Infinity]. *)
Definition unsigned_decimal (s : string) : option Q :=
  let (ip, r1) := span_digits s in
  let (fp, r2) :=
    match r1 with
    | String "." r => span_digits r
    | _ => (EmptyString, r1)
    end in
  if String.eqb ip "" && String.eqb fp "" then None
  else
    match digits_value 10 0 (ip +:+ fp) with
    | None => None
    | Some m =>
        let mant := (inject_Z m / inject_Z (10 ^ Z.of_nat (String.length fp)))%Q in
        if String.eqb r2 "" then Some mant
        else
          match exponent_part r2 with
          | Some e => Some (mant * Qpower 10 e)%Q
          | None => None
          end
    end.

(** Magnitudes from [2^1024 - 2^970] on round to an infinity. *)
Definition overflow_threshold : Q := inject_Z (2 ^ 1024 - 2 ^ 970).

Definition of_magnitude (negative : bool) (q : Q) : jsnum :=
  if Qle_bool overflow_threshold q then Inf negative
  else Fin (Qred (if negative then - q else q)).

Definition non_decimal (base : Z) (digits : string) : jsnum :=
  match nonempty_digits base digits with
  | Some n => of_magnitude false (inject_Z n)
  | None => NaN
  end.

Definition signed_decimal (t : string) : jsnum :=
  let (negative, u) :=
    match t with
    | String "+" r => (false, r)
    | String "-" r => (true, r)
    | _ => (false, t)
    end in
  if String.eqb u "Infinity" then Inf negative
  else
    match unsigned_decimal u with
    | Some q => of_magnitude negative q
    | None => NaN
    end.

(** [Number(s)] for a string [s] (StringToNumber). *)
Definition Number (s : string) : jsnum :=
  let t := Helpers.trim s in
  match t with
  | EmptyString => Fin 0
  | String "0" (String "x" r) | String "0" (String "X" r) => non_decimal 16 r
  | String "0" (String "o" r) | String "0" (String "O" r) => non_decimal 8 r
  | String "0" (String "b" r) | String "0" (String "B" r) => non_decimal 2 r
  | _ => signed_decimal t
  end.

End JSNumber.

(** ** The static file handler of [src/dev-server.js] *)

Module Server.

(** The pieces of a path between its [/] separators. *)
Fixpoint segments (s : string) : list string :=
  match s with
  | EmptyString => [EmptyString]
  | String c rest =>
      if Ascii.eqb c "/" then EmptyString :: segments rest
      else
        match segments rest with
        | seg :: more => String c seg :: more
        | [] => [String c EmptyString]
        end
  end.

(** One segment of Node's [normalizeString]; [stack] holds the segments
    kept so far, the last one first. *)
Definition normalize_step (allowAboveRoot : bool) (stack : list string)
    (seg : string) : list string :=
  if String.eqb seg "" || String.eqb seg "." then stack
  else if String.eqb seg ".." then
    match stack with
    | top :: below =>
        if String.eqb top ".."
        then (if allowAboveRoot then seg :: stack else stack)
        else below
    | [] => if allowAboveRoot then [seg] else []
    end
  else seg :: stack.

Definition normalizeString (allowAboveRoot : bool) (path : string) : string :=
  JS.join "/" (rev (fold_left (normalize_step allowAboveRoot) (segments path) [])).

Fixpoint ends_with_slash (s : string) : bool :=
  match s with
  | EmptyString => false
  | String c EmptyString => Ascii.eqb c "/"
  | String _ rest => ends_with_slash rest
  end.

Definition isAbsolute (s : string) : bool :=
  match s with
  | String c _ => Ascii.eqb c "/"
  | EmptyString => false
  end.

(** [path.normalize] (POSIX). *)
Definition normalize (path : string) : string :=
  if String.eqb path "" then "."
  else
    let p := normalizeString (negb (isAbsolute path)) path in
    if String.eqb p "" then
      (if isAbsolute path then "/" else if ends_with_slash path then "./" else ".")
    else
      let p' := if ends_with_slash path then p +:+ "/" else p in
      if isAbsolute path then "/" +:+ p' else p'.

(** [path.join(a, b)] (POSIX). *)
Definition join (a b : string) : string :=
  let joined :=
    if String.eqb a "" then b
    else if String.eqb b "" then a
    else a +:+ "/" +:+ b in
  if String.eqb joined "" then "." else normalize joined.

(** [decodeURIComponent]: the percent escapes are decoded to bytes; a
    malformed escape throws ([None]).  The well-formedness of the decoded
    UTF-8, which the real function also checks, is not. *)
Fixpoint decodeURIComponent (s : string) : option string :=
  match s with
  | EmptyString => Some EmptyString
  | String c rest =>
      if Ascii.eqb c "%" then
        match rest with
        | String h (String l rest') =>
            match JSNumber.digit_of 16 h, JSNumber.digit_of 16 l with
            | Some a, Some b =>
                option_map (String (ascii_of_nat (Z.to_nat (16 * a + b))))
                           (decodeURIComponent rest')
            | _, _ => None
            end
        | _ => None
        end
      else option_map (String c) (decodeURIComponent rest)
  end.

(** What [fs.stat] reports for a path that exists. *)
Inductive stat : Type := IsFile | IsDirectory | IsOther.

(** The file system: [None] when [fs.stat] fails. *)
Definition filesystem : Type := string -> option stat.

Inductive response : Type :=
| Forbidden403
| NotFound404
| Stream200 (filePath : string).

Definition PUBLIC_DIR (dirname : string) : string := join dirname "public".

(** [serveStatic(req, res, urlObj)] on [urlObj.pathname]; [None] when
    [decodeURIComponent] throws. *)
Definition serveStatic (fs : filesystem) (dirname : string)
    (url_pathname : string) : option response :=
  match decodeURIComponent url_pathname with
  | None => None
  | Some decoded =>
      let pathname := if String.eqb decoded "/" then "/index.html" else decoded in
      let filePath := normalize (join (PUBLIC_DIR dirname) pathname) in
      if negb (Helpers.startsWith (PUBLIC_DIR dirname) filePath) then Some Forbidden403
      else
        match fs filePath with
        | None => Some NotFound404
        | Some IsDirectory =>
            let idx := join filePath "index.html" in
            match fs idx with
            | Some IsFile => Some (Stream200 idx)
            | _ => Some NotFound404
            end
        | Some _ => Some (Stream200 filePath)
        end
  end.

(** A path lies within [root] when it is [root] itself or below it. *)
Definition within_root (root path : string) : bool :=
  String.eqb path root || Helpers.startsWith (root +:+ "/") path.

End Server.

(** ** The widget of [src/public/overlay-widget.js] *)

Module Widget.
Import JS.

(** The cached catalog: [{ merchantId: data.merchantId, offers: active }]. *)
Record catalog : Type := Catalog {
  merchantId : option json;
  offers : list json
}.

(** *** The API functions, from the resolution of [fetch] on *)

(** [new Error(data.error)] where [data.error] may be [undefined]. *)
Definition Error_of (v : option json) : string :=
  match v with
  | Some x => Error x
  | None => ""
  end.

(** [data && data.error]. *)
Definition has_error (data : json) : bool :=
  truthy data && truthy_opt (get data "error").

(** [o => o && o.active]. *)
Definition active (o : json) : bool :=
  truthy o && truthy_opt (get o "active").

Definition array_items (v : option json) : list json :=
  match v with
  | Some (JArr items) => items
  | _ => []
  end.

(** [fetchOffersOnce] after [fetch] has resolved with a response:
    [ok] is [resp.ok] and [resp_json] the outcome of [await resp.json()].
    The value returned is the one assigned to [offersCache]. *)
Definition fetchOffersOnce_response (ok : bool) (resp_json : result json)
    : result catalog :=
  if negb ok then
    let! ignored :=
      tryCatch
        (let! data := resp_json in
         if has_error data then Throw (Error_of (get data "error"))
         else Return tt)
        (fun _ => Return tt) in
    Throw "REQUEST_FAILED"
  else
    tryCatch
      (let! data := resp_json in
       if negb (truthy data) || negb (isArray (get data "offers"))
       then Throw "BAD_RESPONSE"
       else Return {| merchantId := get data "merchantId";
                      offers := List.filter active (array_items (get data "offers")) |})
      (fun e => Throw "PARSE").

(** [submitPurchase] after [fetch] has resolved with a response. *)
Definition submitPurchase_response (ok : bool) (resp_json : result json)
    : result json :=
  let! data := tryCatch resp_json (fun _ => Throw "PARSE") in
  if negb ok then
    (if has_error data then Throw (Error_of (get data "error"))
     else Throw "REQUEST_FAILED")
  else if has_error data then Throw (Error_of (get data "error"))
  else Return data.

(** *** State *)

Inductive view_name : Type := VCatalog | VCheckout | VConfirm | VError | VLoading.

Inductive health_status : Type := Idle | Checking | Ok | Err.

(** [health]; the time stamp [last] is left out. *)
Record health_record : Type := Health {
  status : health_status;
  code : json
}.

(** What [bodyEl] and [footerEl] hold, by the render function that wrote
    them last, with the values its markup and event handlers were built
    from: the offers and, for the catalog, the selection as it was when the
    cards were rendered. *)
Inductive screen_content : Type :=
| Blank
| Loading (message : string)
| ErrorScreen (message : option string) (code : string)
| CatalogScreen (offers : list json) (rendered : gmap string Q)
| CheckoutScreen (offers : list json) (haveItems : bool)
| ConfirmScreen (order : json).

(** The [.then(...).catch(...)] pairs that [setView] attaches to
    [fetchOffersOnce()]. *)
Inductive continuation : Type := ForCatalog | ForCheckout.

(** The body of the purchase request. *)
Record payload : Type := Payload {
  buyer_name : string;
  buyer_email : string;
  recipient_email : string;
  items : list (string * Q)
}.

(** An asynchronous operation suspended at an [await]. *)
Inductive task : Type :=
| CatalogFetch (k : continuation)
| CatalogJson (k : continuation) (ok : bool)
| PurchaseFetch (body : payload)
| PurchaseJson (ok : bool)
| HealthFetch
| HealthJson.

Record state : Type := State {
  isOpen : bool;
  modalOpen : bool;              (* [modal] carries the class [open] *)
  offersCache : option catalog;
  selected : gmap string Q;
  view : view_name;
  lastErrorMessage : string;
  lastOrder : json;
  health : health_record;
  screen : screen_content;
  pending : list task;
  reads : nat;                   (* remote reads started by [fetchOffersOnce] *)
  timerArmed : bool              (* [setTimeout(runHealthCheck, 200)] not fired yet *)
}.

Definition init : state :=
  {| isOpen := false; modalOpen := false; offersCache := None;
     selected := ∅; view := VCatalog; lastErrorMessage := "";
     lastOrder := JNull; health := Health Idle (JStr "");
     screen := Blank; pending := []; reads := 0%nat; timerArmed := true |}.

Definition set_modalOpen (b : bool) (st : state) : state :=
  State (isOpen st) b (offersCache st) (selected st) (view st)
        (lastErrorMessage st) (lastOrder st) (health st) (screen st)
        (pending st) (reads st) (timerArmed st).
Definition set_isOpen (b : bool) (st : state) : state :=
  State b (modalOpen st) (offersCache st) (selected st) (view st)
        (lastErrorMessage st) (lastOrder st) (health st) (screen st)
        (pending st) (reads st) (timerArmed st).
Definition set_offersCache (c : option catalog) (st : state) : state :=
  State (isOpen st) (modalOpen st) c (selected st) (view st)
        (lastErrorMessage st) (lastOrder st) (health st) (screen st)
        (pending st) (reads st) (timerArmed st).
Definition set_selected (m : gmap string Q) (st : state) : state :=
  State (isOpen st) (modalOpen st) (offersCache st) m (view st)
        (lastErrorMessage st) (lastOrder st) (health st) (screen st)
        (pending st) (reads st) (timerArmed st).
Definition set_view (v : view_name) (st : state) : state :=
  State (isOpen st) (modalOpen st) (offersCache st) (selected st) v
        (lastErrorMessage st) (lastOrder st) (health st) (screen st)
        (pending st) (reads st) (timerArmed st).
Definition set_lastErrorMessage (e : string) (st : state) : state :=
  State (isOpen st) (modalOpen st) (offersCache st) (selected st) (view st)
        e (lastOrder st) (health st) (screen st) (pending st) (reads st)
        (timerArmed st).
Definition set_lastOrder (o : json) (st : state) : state :=
  State (isOpen st) (modalOpen st) (offersCache st) (selected st) (view st)
        (lastErrorMessage st) o (health st) (screen st) (pending st) (reads st)
        (timerArmed st).
Definition set_health (h : health_record) (st : state) : state :=
  State (isOpen st) (modalOpen st) (offersCache st) (selected st) (view st)
        (lastErrorMessage st) (lastOrder st) h (screen st) (pending st) (reads st)
        (timerArmed st).
Definition set_screen (s : screen_content) (st : state) : state :=
  State (isOpen st) (modalOpen st) (offersCache st) (selected st) (view st)
        (lastErrorMessage st) (lastOrder st) (health st) s (pending st) (reads st)
        (timerArmed st).
Definition set_pending (p : list task) (st : state) : state :=
  State (isOpen st) (modalOpen st) (offersCache st) (selected st) (view st)
        (lastErrorMessage st) (lastOrder st) (health st) (screen st) p (reads st)
        (timerArmed st).
Definition set_reads (n : nat) (st : state) : state :=
  State (isOpen st) (modalOpen st) (offersCache st) (selected st) (view st)
        (lastErrorMessage st) (lastOrder st) (health st) (screen st)
        (pending st) n (timerArmed st).
Definition set_timerArmed (b : bool) (st : state) : state :=
  State (isOpen st) (modalOpen st) (offersCache st) (selected st) (view st)
        (lastErrorMessage st) (lastOrder st) (health st) (screen st)
        (pending st) (reads st) b.

(** *** Selection *)

(** [selected.get(id) || 0]. *)
Definition qty_of (m : gmap string Q) (id : string) : Q :=
  match m !! id with
  | Some q => if Qeq_bool q 0 then 0%Q else q
  | None => 0%Q
  end.

(** [offers.find(o => o.id === id)]. *)
Definition id_is (id : string) (o : json) : bool :=
  match get o "id" with
  | Some (JStr s) => String.eqb s id
  | _ => false
  end.
Definition find_offer (offers : list json) (id : string) : option json :=
  List.find (id_is id) offers.

(** [Number.isFinite(offer.maxPerOrder) ? offer.maxPerOrder : ...]:
    [Some m] exactly when the field is a number. *)
Definition maxPerOrder (offer : json) : option Z :=
  match get offer "maxPerOrder" with
  | Some (JNum m) => Some m
  | _ => None
  end.

(** The [click] handler of an [.ow-inc] button, up to [setView]; it throws
    a [TypeError] on [offer.maxPerOrder] when no offer is found. *)
Definition increment (offers : list json) (id : string)
    (m : gmap string Q) : result (gmap string Q) :=
  match find_offer offers id with
  | None => Throw "TypeError"
  | Some offer =>
      let qty := qty_of m id in
      let next :=
        Qmin (qty + 1)
             (match maxPerOrder offer with
              | Some mx => inject_Z mx
              | None => qty + 1
              end) in
      Return (<[id := next]> m)
  end.

(** The [click] handler of an [.ow-dec] button, up to [setView]. *)
Definition decrement (id : string) (m : gmap string Q) : gmap string Q :=
  let qty := qty_of m id in
  let next := Qmax 0 (qty - 1) in
  if Qeq_bool next 0 then delete id m else <[id := next]> m.

(** [Number.isFinite(v) && v >= 0 ? v : 0]. *)
Definition safe_quantity (v : JSNumber.jsnum) : Q :=
  match v with
  | JSNumber.Fin q => if Qle_bool 0 q then q else 0%Q
  | _ => 0%Q
  end.

(** The [change] handler of an [.ow-qty-input], up to [setView]. *)
Definition setQuantity (offers : list json) (id : string) (inp_value : string)
    (m : gmap string Q) : result (gmap string Q) :=
  match find_offer offers id with
  | None => Throw "TypeError"
  | Some offer =>
      let v := JSNumber.Number (Helpers.trim inp_value) in
      let safe := safe_quantity v in
      let max :=
        match maxPerOrder offer with
        | Some mx => inject_Z mx
        | None => safe
        end in
      let bounded := Qmin safe max in
      Return (if Qeq_bool bounded 0 then delete id m else <[id := bounded]> m)
  end.

(** [countSelectedItems()]. *)
Definition countSelectedItems (m : gmap string Q) : Q :=
  map_fold (fun _ qty count => (count + qty)%Q) 0%Q m.

(** [getSelectedItems()]: the entries with [qty > 0]. *)
Definition getSelectedItems (m : gmap string Q) : list (string * Q) :=
  List.filter (fun it => negb (Qle_bool (snd it) 0)) (map_to_list m).

(** *** Validator *)

(** A character that [.] of a regular expression does not match. *)
Definition is_line_terminator (c : ascii) : bool :=
  Ascii.eqb c (ascii_of_nat 10) || Ascii.eqb c (ascii_of_nat 13).

Definition starts_with_plain (s : string) : bool :=
  match s with
  | String c _ => negb (is_line_terminator c)
  | EmptyString => false
  end.

(** Some [\..] occurs in [s] with no line terminator before it. *)
Fixpoint dot_then_char (s : string) : bool :=
  match s with
  | EmptyString => false
  | String c rest =>
      negb (is_line_terminator c)
      && ((Ascii.eqb c "." && starts_with_plain rest) || dot_then_char rest)
  end.

(** [s] matches [.+\..+] from its first character. *)
Definition domain_part (s : string) : bool :=
  match s with
  | String c rest => negb (is_line_terminator c) && dot_then_char rest
  | EmptyString => false
  end.

Fixpoint at_scan (before : bool) (s : string) : bool :=
  match s with
  | EmptyString => false
  | String c rest =>
      (before && Ascii.eqb c "@" && domain_part rest)
      || at_scan (negb (is_line_terminator c)) rest
  end.

(** [/.+@.+\..+/.test(email)]. *)
Definition isValidEmail (email : string) : bool := at_scan false email.

(** *** Rendering and view changes *)

Definition is_null (v : json) : bool :=
  match v with
  | JNull => true
  | _ => false
  end.

(** [renderConfirm(order)] for a truthy [order].  Building the list of
    codes throws a [TypeError] when [order.giftCards] is truthy and not an
    array, or holds a [null]; nothing has been written to the page by then.
    The messages are those of V8. *)
Definition renderConfirm (order : json) : result screen_content :=
  match get order "giftCards" with
  | Some (JArr cards) =>
      if existsb is_null cards
      then Throw "Cannot read properties of null (reading 'code')"
      else Return (ConfirmScreen order)
  | Some v =>
      if truthy v then Throw "(order.giftCards || []).map is not a function"
      else Return (ConfirmScreen order)
  | None => Return (ConfirmScreen order)
  end.

(** [renderError(undefined, sanitizeErrorCode(lastErrorMessage))]. *)
Definition show_error (st : state) : state :=
  set_screen
    (ErrorScreen None (Helpers.sanitizeErrorCode (Some (lastErrorMessage st)))) st.

(** The callbacks that [setView] attaches to [fetchOffersOnce()]: [.then]
    renders the view, [.catch] records the message and renders the error. *)
Definition settle_catalog (k : continuation) (r : result catalog)
    (st : state) : state :=
  match r with
  | Return c =>
      match k with
      | ForCatalog => set_screen (CatalogScreen (offers c) (selected st)) st
      | ForCheckout =>
          set_screen
            (CheckoutScreen (offers c)
               (negb (Nat.eqb (length (getSelectedItems (selected st))) 0))) st
      end
  | Throw e => show_error (set_lastErrorMessage (message_or_UNKNOWN e) st)
  end.

(** [fetchOffersOnce()] up to its first [await], with the callbacks [k] of
    the caller: the cached catalog is returned at once; otherwise a remote
    read is started. *)
Definition fetchOffersOnce (k : continuation) (st : state) : state :=
  match offersCache st with
  | Some c => settle_catalog k (Return c) st
  | None =>
      set_reads (S (reads st)) (set_pending (pending st ++ [CatalogFetch k]) st)
  end.

(** [message || 'Loading...']. *)
Definition loading_text (message : option string) : string :=
  match message with
  | Some m => if String.eqb m "" then "Loading..." else m
  | None => "Loading..."
  end.

(** [setView(next, loadingMessage)].  Only [renderConfirm] can throw, and it
    does so after [view = next] and before anything else changed. *)
Definition setView (next : view_name) (loadingMessage : option string)
    (st : state) : result state :=
  let st := set_view next st in
  match next with
  | VLoading => Return (set_screen (Loading (loading_text loadingMessage)) st)
  | VError => Return (show_error st)
  | VCatalog =>
      Return (fetchOffersOnce ForCatalog (set_screen (Loading "Loading offers...") st))
  | VCheckout => Return (fetchOffersOnce ForCheckout st)
  | VConfirm =>
      if truthy (lastOrder st) then
        let! scr := renderConfirm (lastOrder st) in Return (set_screen scr st)
      else Return (set_screen (ErrorScreen (Some "Missing order") "UNKNOWN") st)
  end.

(** [setView] at a call site outside any [try]: the state at the point
    where an exception, if any, left it. *)
Definition setView_ (next : view_name) (loadingMessage : option string)
    (st : state) : state :=
  match setView next loadingMessage st with
  | Return st' => st'
  | Throw _ => set_view next st
  end.

(** [runHealthCheck()] up to its [await fetch(...)]. *)
Definition runHealthCheck (st : state) : state :=
  set_pending (pending st ++ [HealthFetch])
    (set_health (Health Checking (JStr "")) st).

Definition openModal (st : state) : state :=
  if isOpen st then set_modalOpen true st
  else
    runHealthCheck
      (setView_ VCatalog None (set_modalOpen true (set_isOpen true st))).

Definition closeModal (st : state) : state := set_modalOpen false st.

(** The [catch] of the submit handler. *)
Definition submit_failed (e : string) (st : state) : state :=
  setView_ VError None (set_lastErrorMessage (message_or_UNKNOWN e) st).

(** The submit handler from [await submitPurchase(payload)] on. *)
Definition settle_purchase (r : result json) (st : state) : state :=
  match r with
  | Return res =>
      let st1 := set_lastOrder res st in
      match setView VConfirm None st1 with
      | Return st2 => st2
      | Throw e => submit_failed e (set_view VConfirm st1)
      end
  | Throw e => submit_failed e st
  end.

(** The [click] handler of [#ow-submit].  The marks that its [setInvalid]
    calls leave on the three fields are not part of the state: they are
    those of [Form.setInvalid], and [Form.click_submit] is the handler with
    them. *)
Definition submit (haveItems : bool) (name buyerEmail recipientEmail : string)
    (st : state) : state :=
  let v_name := Helpers.trim name in
  let v_buyerEmail := Helpers.trim buyerEmail in
  let v_recipientEmail := Helpers.trim recipientEmail in
  let valid :=
    negb (String.eqb v_name "") && isValidEmail v_buyerEmail
    && isValidEmail v_recipientEmail && haveItems in
  if negb valid then st
  else
    let st1 := setView_ VLoading (Some "Submitting order...") st in
    set_pending
      (pending st1 ++
       [PurchaseFetch (Payload v_name v_buyerEmail v_recipientEmail
                               (getSelectedItems (selected st1)))]) st1.

(** [runHealthCheck] after a response that is not [ok], from
    [await resp.json()] on. *)
Definition settle_health_json (resp_json : result json) (st : state) : state :=
  let code1 :=
    match resp_json with
    | Return data =>
        if has_error data
        then match get data "error" with Some e => e | None => code (health st) end
        else code (health st)
    | Throw _ => code (health st)
    end in
  set_health
    (Health Err (if negb (truthy code1) then JStr "REQUEST_FAILED" else code1)) st.

(** *** Events *)

(** How an [await] ends. *)
Inductive outcome : Type :=
| FetchRejected                 (* no response: transport failure or abort *)
| FetchResponse (ok : bool)
| JsonRejected                  (* the body is not JSON *)
| JsonParsed (data : json).

Inductive event : Type :=
| ClickFab
| Dismiss                       (* close button, backdrop, Escape, Close, Done *)
| ClickRetry
| PassiveTimer
| ClickInc (id : string)
| ClickDec (id : string)
| ChangeQty (id : string) (inp_value : string)
| ClickCheckout
| ClickBack
| ClickSubmit (name buyerEmail recipientEmail : string)
| Settle (i : nat) (o : outcome).

(** The [data-id] attribute of the controls of an offer card:
    [String(o.id || '')] once the markup is parsed. *)
Definition data_id (o : json) : string :=
  match get o "id" with
  | Some v => if truthy v then toStr v else ""
  | None => ""
  end.

(** [selected.get(o.id) || 0] in [renderCatalog]. *)
Definition rendered_qty (rendered : gmap string Q) (o : json) : Q :=
  match get o "id" with
  | Some (JStr s) => qty_of rendered s
  | _ => 0%Q
  end.

(** [typeof o.maxPerOrder === 'number' && qty >= o.maxPerOrder]. *)
Definition reachMax (rendered : gmap string Q) (o : json) : bool :=
  match maxPerOrder o with
  | Some mx => Qle_bool (inject_Z mx) (rendered_qty rendered o)
  | None => false
  end.

(** Some card carries the given [data-id]. *)
Definition has_card (offers : list json) (id : string) : bool :=
  existsb (fun o => String.eqb (data_id o) id) offers.

(** Some card carries the given [data-id] on an [.ow-inc] button that is
    not disabled. *)
Definition has_enabled_inc (offers : list json) (rendered : gmap string Q)
    (id : string) : bool :=
  existsb (fun o => String.eqb (data_id o) id && negb (reachMax rendered o)) offers.

(** A selection handler followed by [setView('catalog')]; an exception
    leaves the handler before anything changed. *)
Definition after_selection (r : result (gmap string Q)) (st : state) : state :=
  match r with
  | Return m => setView_ VCatalog None (set_selected m st)
  | Throw _ => st
  end.

Definition as_json_result (o : outcome) : option (result json) :=
  match o with
  | JsonRejected => Some (Throw "SyntaxError")
  | JsonParsed data => Some (Return data)
  | _ => None
  end.

(** The continuation of the [i]-th pending operation. *)
Definition settle (i : nat) (o : outcome) (st : state) : option state :=
  match pending st !! i with
  | None => None
  | Some t =>
      let done := set_pending (delete i (pending st)) st in
      let next t' := set_pending (<[i := t']> (pending st)) st in
      match t, o with
      | CatalogFetch k, FetchRejected => Some (settle_catalog k (Throw "NETWORK") done)
      | CatalogFetch k, FetchResponse ok => Some (next (CatalogJson k ok))
      | CatalogJson k ok, (JsonRejected | JsonParsed _) =>
          match as_json_result o with
          | Some rj =>
              let r := fetchOffersOnce_response ok rj in
              let done' :=
                match r with
                | Return c => set_offersCache (Some c) done
                | Throw _ => done
                end in
              Some (settle_catalog k r done')
          | None => None
          end
      | PurchaseFetch _, FetchRejected => Some (settle_purchase (Throw "NETWORK") done)
      | PurchaseFetch _, FetchResponse ok => Some (next (PurchaseJson ok))
      | PurchaseJson ok, (JsonRejected | JsonParsed _) =>
          match as_json_result o with
          | Some rj => Some (settle_purchase (submitPurchase_response ok rj) done)
          | None => None
          end
      | HealthFetch, FetchRejected =>
          Some (set_health (Health Err (JStr "NETWORK")) done)
      | HealthFetch, FetchResponse true =>
          Some (set_health (Health Ok (JStr "")) done)
      | HealthFetch, FetchResponse false => Some (next HealthJson)
      | HealthJson, (JsonRejected | JsonParsed _) =>
          match as_json_result o with
          | Some rj => Some (settle_health_json rj done)
          | None => None
          end
      | _, _ => None
      end
  end.

(** One event of the page; [None] when the event cannot happen in the
    state (the control is not on the page, is disabled, or the modal is
    hidden). *)
Definition step (e : event) (st : state) : option state :=
  match e with
  | ClickFab => Some (openModal st)
  | Dismiss => Some (closeModal st)
  | PassiveTimer =>
      if timerArmed st then Some (runHealthCheck (set_timerArmed false st))
      else None
  | Settle i o => settle i o st
  | _ =>
      if negb (modalOpen st) then None
      else
        match e, screen st with
        | ClickRetry, _ => Some (runHealthCheck st)
        | ClickInc id, CatalogScreen offers rendered =>
            if has_enabled_inc offers rendered id
            then Some (after_selection (increment offers id (selected st)) st)
            else None
        | ClickDec id, CatalogScreen offers _ =>
            if has_card offers id
            then Some (after_selection (Return (decrement id (selected st))) st)
            else None
        | ChangeQty id inp_value, CatalogScreen offers _ =>
            if has_card offers id
            then Some (after_selection (setQuantity offers id inp_value (selected st)) st)
            else None
        | ClickCheckout, CatalogScreen _ rendered =>
            if Qeq_bool (countSelectedItems rendered) 0 then None
            else Some (setView_ VCheckout None st)
        | ClickBack, (ErrorScreen _ _ | CheckoutScreen _ _) =>
            Some (setView_ VCatalog None st)
        | ClickSubmit name buyerEmail recipientEmail, CheckoutScreen _ haveItems =>
            if haveItems
            then Some (submit haveItems name buyerEmail recipientEmail st)
            else None
        | _, _ => None
        end
  end.

(** The state after a sequence of events, from the first to the last. *)
Fixpoint run (es : list event) (st : state) : option state :=
  match es with
  | [] => Some st
  | e :: rest =>
      match step e st with
      | Some st' => run rest st'
      | None => None
      end
  end.

End Widget.

(** ** Specification-level definitions *)

Module EscapeSpec.
Import Helpers.

(** The entity of a character, as the words of the specification have it:
    each of the five special characters by its HTML entity, every other
    character by itself. *)
Definition entity_of (c : ascii) : string :=
  if Ascii.eqb c "&" then "&amp;"
  else if Ascii.eqb c "<" then "&lt;"
  else if Ascii.eqb c ">" then "&gt;"
  else if Ascii.eqb c dquote then "&quot;"
  else if Ascii.eqb c "'" then "&#039;"
  else String c EmptyString.

Fixpoint escape_each (s : string) : string :=
  match s with
  | EmptyString => EmptyString
  | String c rest => entity_of c +:+ escape_each rest
  end.

(** The characters that open or close a tag or an attribute value. *)
Definition is_markup (c : ascii) : bool :=
  Ascii.eqb c "<" || Ascii.eqb c ">" || Ascii.eqb c dquote || Ascii.eqb c "'".

Fixpoint no_markup (s : string) : bool :=
  match s with
  | EmptyString => true
  | String c rest => negb (is_markup c) && no_markup rest
  end.

(** What follows an ampersand is the rest of one of the five entities. *)
Definition entity_follows (s : string) : bool :=
  startsWith "amp;" s || startsWith "lt;" s || startsWith "gt;" s
  || startsWith "quot;" s || startsWith "#039;" s.

Fixpoint ampersands_escaped (s : string) : bool :=
  match s with
  | EmptyString => true
  | String c rest =>
      (if Ascii.eqb c "&" then entity_follows rest else true)
      && ampersands_escaped rest
  end.

End EscapeSpec.

Module SanitizeSpec.
Import Helpers.

Definition is_letter (c : ascii) : bool := is_lower c || is_upper c.

(** The upper-casing of a character, replaced by an underscore when it is
    outside letters, digits and the underscore. *)
Definition sanitize_char (c : ascii) : ascii :=
  let u := upper_char c in
  if is_letter u || is_digit u || Ascii.eqb u "_" then u else "_"%char.

(** The sanitization in the words of the specification: an empty or absent
    identifier becomes [UNKNOWN], a code of the allow-list passes through
    unchanged, any other string is upper-cased with every character outside
    letters, digits and underscore replaced by an underscore. *)
Definition sanitize_spec (msg : option string) : string :=
  match msg with
  | None => "UNKNOWN"
  | Some s =>
      if String.eqb s "" then "UNKNOWN"
      else if in_dec String.string_dec s known then s
      else map_string sanitize_char s
  end.

End SanitizeSpec.

(** ** Scenarios *)

Module Scenario.
Import JS Widget.

(** One active offer: price 500, currency EUR, at most 2 per order. *)
Definition offer1 : json :=
  JObj [("id", JStr "o1"); ("merchantId", JStr "demo-merchant-1");
        ("name", JStr "Gift card"); ("currency", JStr "EUR");
        ("amountMinor", JNum 500); ("maxPerOrder", JNum 2);
        ("active", JBool true)].

Definition catalog_body : json :=
  JObj [("merchantId", JStr "demo-merchant-1"); ("offers", JArr [offer1])].

(** The body that the relay service sends with status 401. *)
Definition unauthorised_body : json := JObj [("error", JStr "UNAUTHORISED")].

(** A body with a success status and no [offers]. *)
Definition no_offers_body : json := JObj [("merchantId", JStr "demo-merchant-1")].

Definition order_body : json :=
  JObj [("orderId", JStr "ord-1"); ("merchantId", JStr "demo-merchant-1");
        ("currency", JStr "EUR"); ("totalMinor", JNum 500);
        ("giftCards", JArr [])].

(** An error code outside the allow-list, in lower case. *)
Definition lower_case_error_body : json := JObj [("error", JStr "qty_limit")].

(** First open; the catalog read and the probe answer; one unit of [o1]
    is selected. *)
Definition open_and_select : list event :=
  [ClickFab;
   Settle 0 (FetchResponse true); Settle 0 (JsonParsed catalog_body);
   Settle 0 (FetchResponse true);
   ClickInc "o1"].

(** ... then checkout with a valid form, up to the arrival of the response
    to the purchase request. *)
Definition to_purchase_response : list event :=
  open_and_select ++
  [ClickCheckout; ClickSubmit "Jane Doe" "jane@acme.com" "recipient@domain.com";
   Settle 0 (FetchResponse true)].

(** ... then the order arrives and the confirm view is shown. *)
Definition to_confirm : list event :=
  to_purchase_response ++ [Settle 0 (JsonParsed order_body)].

(** The state in which the response to the purchase request has arrived
    and its body is awaited. *)
Definition awaiting_purchase_body : state :=
  match run to_purchase_response init with
  | Some st => st
  | None => init
  end.

(** The body [{error: "QTY_LIMIT"}] of Scenario C. *)
Definition qty_limit_body : json := JObj [("error", JStr "QTY_LIMIT")].

(** A directory next to the public root whose name starts like it. *)
Definition fs_with_sibling : Server.filesystem :=
  fun p =>
    if String.eqb p "/srv/app/public-old/secret.txt" then Some Server.IsFile
    else if String.eqb p "/srv/app/public/index.html" then Some Server.IsFile
    else None.

(** An accepted order whose list of gift cards holds [null]. *)
Definition null_card_body : json :=
  JObj [("orderId", JStr "ord-2"); ("currency", JStr "EUR");
        ("totalMinor", JNum 500); ("giftCards", JArr [JNull])].

(** A body with a success status whose [error] field is the empty string. *)
Definition empty_error_body : json :=
  JObj [("error", JStr ""); ("orderId", JStr "ord-3")].

End Scenario.

(** ** The selection under sequences of actions *)

Module SelectionSpec.
Import JS Widget.

Inductive action : Type :=
| Increment (id : string)
| Decrement (id : string)
| SetQuantity (id : string) (inp_value : string).

(** The selection after the handler of an action; a handler that throws
    leaves it as it was. *)
Definition apply_action (offers : list json) (m : gmap string Q)
    (a : action) : gmap string Q :=
  match a with
  | Increment id =>
      match increment offers id m with Return m' => m' | Throw _ => m end
  | Decrement id => decrement id m
  | SetQuantity id inp_value =>
      match setQuantity offers id inp_value m with Return m' => m' | Throw _ => m end
  end.

Definition run_actions (offers : list json) (actions : list action)
    (m : gmap string Q) : gmap string Q :=
  fold_left (apply_action offers) actions m.

(** Every max-per-order that is defined is positive. *)
Definition positive_maxima (offers : list json) : Prop :=
  forall o mx, In o offers -> maxPerOrder o = Some mx -> (0 < mx)%Z.

(** Every stored quantity is positive and at most the max-per-order, when
    defined, of the offer that the handlers find for its identifier. *)
Definition within_bounds (offers : list json) (m : gmap string Q) : Prop :=
  forall id q,
    m !! id = Some q ->
    (0 < q)%Q
    /\ forall offer mx,
         find_offer offers id = Some offer ->
         maxPerOrder offer = Some mx ->
         (q <= inject_Z mx)%Q.

(** A rational that is an integer. *)
Definition is_integer (q : Q) : Prop := exists n : Z, (q == inject_Z n)%Q.

End SelectionSpec.

(** ** Counting the operations in flight *)

Module Flight.
Import JS Widget.

(** A remote catalog read started by [fetchOffersOnce]. *)
Definition is_catalog_read (t : task) : bool :=
  match t with
  | CatalogFetch _ | CatalogJson _ _ => true
  | _ => false
  end.

(** A health probe started by [runHealthCheck]. *)
Definition is_probe (t : task) : bool :=
  match t with
  | HealthFetch | HealthJson => true
  | _ => false
  end.

Definition outstanding_reads (st : state) : nat :=
  length (List.filter is_catalog_read (pending st)).

Definition probes_in_flight (st : state) : nat :=
  length (List.filter is_probe (pending st)).

(** Before the first open nothing has been rendered, the modal is hidden
    and only probes can be in flight. *)
Definition unopened_is_blank (st : state) : Prop :=
  isOpen st = false ->
  screen st = Blank /\ modalOpen st = false
  /\ Forall (fun t => is_probe t = true) (pending st).

(** A purchase request in flight. *)
Definition is_purchase (t : task) : bool :=
  match t with
  | PurchaseFetch _ | PurchaseJson _ => true
  | _ => false
  end.

Definition purchases_in_flight (st : state) : nat :=
  length (List.filter is_purchase (pending st)).

(** The loading screen: a spinner and an empty footer, no control. *)
Definition is_loading (s : screen_content) : bool :=
  match s with
  | Loading _ => true
  | _ => false
  end.

(** The screens that are rendered from the offers of the catalog. *)
Definition shows_offers (s : screen_content) : bool :=
  match s with
  | CatalogScreen _ _ | CheckoutScreen _ _ => true
  | _ => false
  end.

Definition cached (st : state) : bool :=
  match offersCache st with
  | Some _ => true
  | None => false
  end.

(** The call sites of [fetchOffersOnce] are serialised: at most one of its
    reads is outstanding, and then the cache is empty and the loading
    screen is on the page; a purchase is in flight, and offers are on the
    page, only once the cache is populated. *)
Definition reads_serialised (st : state) : Prop :=
  (outstanding_reads st <= 1)%nat
  /\ (outstanding_reads st = 1%nat ->
      cached st = false /\ is_loading (screen st) = true)
  /\ (purchases_in_flight st <> 0%nat -> cached st = true)
  /\ (shows_offers (screen st) = true -> cached st = true).

(** The confirm screen is on the page only in the confirm view. *)
Definition confirm_screen_in_confirm_view (st : state) : Prop :=
  forall order, screen st = ConfirmScreen order -> view st = VConfirm.

End Flight.

(** ** Tokens, and the shape of an accepted e-mail address *)

Module TextSpec.
Import Helpers Widget.

Fixpoint all_chars (f : ascii -> bool) (s : string) : bool :=
  match s with
  | EmptyString => true
  | String c rest => f c && all_chars f rest
  end.

(** A non-empty string of the characters [A-Z], [0-9] and [_]. *)
Definition is_token (s : string) : bool :=
  negb (String.eqb s "") && all_chars word_char s.

(** A character that [.] of a regular expression matches. *)
Definition plain (c : ascii) : bool := negb (is_line_terminator c).

(** [s] holds a match of [.+@.+\..+]: a plain character, [@], a non-empty
    run of plain characters, a dot and a plain character. *)
Definition has_address_shape (s : string) : Prop :=
  exists (p : string) (c d : ascii) (m : string) (e : ascii) (q : string),
    s = p +:+ String c (String "@" (String d (m +:+ String "." (String e q))))
    /\ plain c = true /\ plain d = true
    /\ all_chars plain m = true /\ plain e = true.

End TextSpec.

(** ** Views of the state *)

Module MachineSpec.
Import JS Widget Flight TextSpec.

(** A state that the widget reaches from its initial state. *)
Definition reachable (st : state) : Prop := exists es, run es init = Some st.

(** The state without the health record. *)
Definition main_of (st : state) :=
  (isOpen st, modalOpen st, offersCache st, selected st, view st,
   lastErrorMessage st, lastOrder st, screen st, pending st, reads st,
   timerArmed st).

(** What the catalog, checkout, confirm and error flow owns. *)
Definition flow_of (st : state) :=
  (isOpen st, modalOpen st, offersCache st, selected st, view st,
   lastErrorMessage st, lastOrder st, screen st, reads st).

(** An event of the health monitor: a trigger of a probe, or the end of an
    [await] of a probe. *)
Definition is_health_event (st : state) (e : event) : bool :=
  match e with
  | ClickRetry | PassiveTimer => true
  | Settle i _ =>
      match pending st !! i with
      | Some t => is_probe t
      | None => false
      end
  | _ => false
  end.

(** An event of the quantity controls of the catalog. *)
Definition is_selection_event (e : event) : bool :=
  match e with
  | ClickInc _ | ClickDec _ | ChangeQty _ _ => true
  | _ => false
  end.

(** The three checks of the submit handler on the trimmed fields. *)
Definition valid_form (name buyerEmail recipientEmail : string) : bool :=
  negb (String.eqb (Helpers.trim name) "")
  && isValidEmail (Helpers.trim buyerEmail)
  && isValidEmail (Helpers.trim recipientEmail).

(** The offers on the page are the cached ones, and those are active. *)
Definition shows_cached_offers (st : state) : Prop :=
  (forall c, offersCache st = Some c -> Forall (fun o => active o = true) (offers c))
  /\ (forall offs,
        (exists r, screen st = CatalogScreen offs r)
        \/ (exists h, screen st = CheckoutScreen offs h) ->
        exists c, offersCache st = Some c /\ offers c = offs).

(** The confirm screen shows the stored order. *)
Definition confirm_shows_stored_order (st : state) : Prop :=
  forall order, screen st = ConfirmScreen order ->
                lastOrder st = order /\ truthy order = true.

(** The code of the error screen is a token. *)
Definition error_code_is_token (st : state) : Prop :=
  forall message code, screen st = ErrorScreen message code -> is_token code = true.

(** At most one purchase is in flight, behind the loading screen. *)
Definition purchases_serialised (st : state) : Prop :=
  (purchases_in_flight st <= 1)%nat
  /\ (purchases_in_flight st = 1%nat -> is_loading (screen st) = true).

End MachineSpec.

(** ** States of the scenarios *)

Module States.
Import JS Widget Scenario.

Definition state_after (es : list event) : state :=
  match run es init with
  | Some st => st
  | None => init
  end.

(** The catalog is on the page with one unit of [o1] selected. *)
Definition catalog_shown : state := state_after open_and_select.

(** The first catalog read was answered with status 401. *)
Definition catalog_failed : list event :=
  [ClickFab; Settle 0 (FetchResponse false);
   Settle 0 (JsonParsed unauthorised_body)].

Definition error_shown : state := state_after catalog_failed.

(** The checkout form is on the page. *)
Definition to_checkout : list event := open_and_select ++ [ClickCheckout].

Definition checkout_shown : state := state_after to_checkout.

(** The confirm view is on the page. *)
Definition confirm_shown : state := state_after to_confirm.

(** The passive probe is in flight on the page that was never opened. *)
Definition probing : state := state_after [PassiveTimer].

End States.

(** ** The subtotal of the selection *)

Module Subtotal.
Import JS Widget.
Import JSNumber.

(** ToNumber of a value that may be [undefined]. *)
Definition ToNumber (v : option json) : jsnum :=
  match v with
  | None => NaN
  | Some JNull => Fin 0
  | Some (JBool b) => Fin (if b then 1 else 0)
  | Some (JNum n) => Fin (inject_Z n)
  | Some (JStr s) => Number s
  | Some (JArr items) => Number (toStr (JArr items))
  | Some (JObj _) => NaN
  end.

(** [a * b] and [a + b] on numbers; the value of a finite result is exact. *)
Definition mul (a b : jsnum) : jsnum :=
  match a, b with
  | NaN, _ | _, NaN => NaN
  | Inf s, Inf t => Inf (xorb s t)
  | Inf s, Fin q | Fin q, Inf s =>
      if Qeq_bool q 0 then NaN else Inf (xorb s (negb (Qle_bool 0 q)))
  | Fin p, Fin q => Fin (p * q)
  end.

Definition add (a b : jsnum) : jsnum :=
  match a, b with
  | NaN, _ | _, NaN => NaN
  | Inf s, Inf t => if Bool.eqb s t then Inf s else NaN
  | Inf s, Fin _ | Fin _, Inf s => Inf s
  | Fin p, Fin q => Fin (p + q)
  end.

(** The same number: finite values are compared as rationals. *)
Definition same (a b : jsnum) : Prop :=
  match a, b with
  | NaN, NaN => True
  | Inf s, Inf t => s = t
  | Fin p, Fin q => (p == q)%Q
  | _, _ => False
  end.

(** What one entry of the selection adds to the sum:
    [if (offer) sum += offer.amountMinor * qty]. *)
Definition add_entry (offers : list json) (offerId : string) (qty : Q)
    (sum : jsnum) : jsnum :=
  match find_offer offers offerId with
  | Some offer => add sum (mul (ToNumber (get offer "amountMinor")) (Fin qty))
  | None => sum
  end.

(** [sumSelectedSubtotalMinor(offers)]. *)
Definition sumSelectedSubtotalMinor (offers : list json)
    (m : gmap string Q) : jsnum :=
  map_fold (add_entry offers) (Fin 0) m.

(** Every stored quantity is positive. *)
Definition positive_quantities (m : gmap string Q) : Prop :=
  forall id q, m !! id = Some q -> (0 < q)%Q.

End Subtotal.

(** ** The API handlers and the router of [src/dev-server.js] *)

Module Relay.
Import JS.

(** The environment of the server. *)
Record config : Type := Config {
  REQUIRED_KEY : string;         (* [WIDGET_OVERLAY_KEY], or the empty string *)
  UPSTREAM_BFF_BASE : string     (* [UPSTREAM_BFF_BASE], or the empty string *)
}.

(** What [parseJsonBody] settles with: the parsed body (an empty body is
    read as [{}]), the rejection [BAD_JSON], or the error of the stream. *)
Inductive body_read : Type :=
| BodyJson (body : json)
| BodyBadJson
| BodyError.

(** A request, as the handlers read it. *)
Record request : Type := Request {
  method : string;                   (* [req.method] *)
  pathname : string;                 (* [urlObj.pathname] *)
  merchantId_param : option string;  (* [urlObj.searchParams.get('merchantId')] *)
  overlay_key : option string;       (* [req.headers['x-overlay-key']] *)
  body : body_read
}.

(** What [proxyJson] settles with: the status and the parsed body of the
    upstream reply (an empty reply is read as [{}]), or a rejection. *)
Inductive upstream_outcome : Type :=
| UpstreamReplied (statusCode : Z) (reply : json)
| UpstreamFailed.

Inductive http_response : Type :=
| JsonResponse (status : Z) (body : json)    (* [sendJson(res, status, body)] *)
| NoContent204                               (* [handleOptions] *)
| Static (r : option Server.response).       (* [serveStatic]; [None]: it throws *)

Definition error_body (code : string) : json := JObj [("error", JStr code)].

Definition checkKey (cfg : config) (req : request) : bool :=
  if String.eqb (REQUIRED_KEY cfg) "" then true
  else
    match overlay_key req with
    | Some got => negb (String.eqb got "") && String.eqb got (REQUIRED_KEY cfg)
    | None => false
    end.

(** [{ status: up.statusCode || 200, json }] passed to [sendJson]. *)
Definition relay (up : upstream_outcome) : http_response :=
  match up with
  | UpstreamReplied statusCode reply =>
      JsonResponse (if statusCode =? 0 then 200 else statusCode) reply
  | UpstreamFailed => JsonResponse 502 (error_body "UPSTREAM_ERROR")
  end.

Definition handleCatalog (cfg : config) (up : upstream_outcome)
    (req : request) : http_response :=
  if String.eqb (method req) "OPTIONS" then NoContent204
  else if negb (checkKey cfg req) then JsonResponse 401 (error_body "UNAUTHORISED")
  else if negb (String.eqb (UPSTREAM_BFF_BASE cfg) "") then relay up
  else
    JsonResponse 200
      (JObj [("merchantId",
              match merchantId_param req with Some m => JStr m | None => JNull end);
             ("offers", JArr [])]).

Definition handlePurchase (cfg : config) (up : upstream_outcome)
    (req : request) : http_response :=
  if String.eqb (method req) "OPTIONS" then NoContent204
  else if negb (String.eqb (method req) "POST")
  then JsonResponse 405 (error_body "METHOD_NOT_ALLOWED")
  else if negb (checkKey cfg req) then JsonResponse 401 (error_body "UNAUTHORISED")
  else if negb (String.eqb (UPSTREAM_BFF_BASE cfg) "") then
    match body req with
    | BodyJson _ => relay up
    | BodyBadJson => JsonResponse 400 (error_body "BAD_JSON")
    | BodyError => JsonResponse 500 (error_body "SERVER_ERROR")
    end
  else JsonResponse 501 (error_body "NO_UPSTREAM").

(** The request listener of [http.createServer]. *)
Definition route (cfg : config) (fs : Server.filesystem) (dirname : string)
    (up : upstream_outcome) (req : request) : http_response :=
  if String.eqb (pathname req) "/api/bff/demo/catalog" then handleCatalog cfg up req
  else if String.eqb (pathname req) "/api/bff/demo/purchase" then handlePurchase cfg up req
  else if String.eqb (method req) "OPTIONS" then NoContent204
  else Static (Server.serveStatic fs dirname (pathname req)).

(** *** The widget in front of the server *)

(** The catalog request of the widget: the key is sent when [API_KEY] is
    not empty. *)
Definition widget_catalog_request (MERCHANT_ID API_KEY : string) : request :=
  {| method := "GET"; pathname := "/api/bff/demo/catalog";
     merchantId_param := Some MERCHANT_ID;
     overlay_key := if String.eqb API_KEY "" then None else Some API_KEY;
     body := BodyJson (JObj []) |}.

(** The purchase request of the widget, with the JSON of its body. *)
Definition widget_purchase_request (API_KEY : string) (payload : json) : request :=
  {| method := "POST"; pathname := "/api/bff/demo/purchase";
     merchantId_param := None;
     overlay_key := if String.eqb API_KEY "" then None else Some API_KEY;
     body := BodyJson payload |}.

(** How [fetch] and [resp.json()] settle in the widget for a response of
    the server: [resp.ok] is a status from 200 to 299; a response without a
    body is not JSON. *)
Definition fetch_outcome (r : http_response) : option Widget.outcome :=
  match r with
  | JsonResponse status _ =>
      Some (Widget.FetchResponse ((200 <=? status) && (status <=? 299)))
  | NoContent204 => Some (Widget.FetchResponse true)
  | Static _ => None
  end.

Definition json_outcome (r : http_response) : Widget.outcome :=
  match r with
  | JsonResponse _ body => Widget.JsonParsed body
  | _ => Widget.JsonRejected
  end.

End Relay.

(** ** Request paths *)

Module PathSpec.
Import Helpers Server.

(** The string starts with two hexadecimal digits. *)
Definition starts_with_hex_pair (s : string) : bool :=
  match s with
  | String h (String l _) =>
      match JSNumber.digit_of 16 h, JSNumber.digit_of 16 l with
      | Some _, Some _ => true
      | _, _ => false
      end
  | _ => false
  end.

Definition not_percent (c : ascii) : bool := negb (Ascii.eqb c "%").
Definition not_slash (c : ascii) : bool := negb (Ascii.eqb c "/").

(** A segment that [normalize] keeps: not empty, not [.], not [..]. *)
Definition kept (seg : string) : bool :=
  negb (String.eqb seg "" || String.eqb seg "." || String.eqb seg "..").

(** A segment that names a file or a directory: kept, and free of [/]. *)
Definition is_name (seg : string) : bool :=
  kept seg && TextSpec.all_chars not_slash seg.

(** The normal form of an absolute path, from the names it keeps. *)
Definition absolute_path (names : list string) (trailing : bool) : string :=
  match names with
  | [] => "/"
  | _ => "/" +:+ (if trailing then JS.join "/" names +:+ "/" else JS.join "/" names)
  end.

(** No segment of the path is [..]. *)
Definition no_dotdot (path : string) : bool :=
  forallb (fun seg => negb (String.eqb seg "..")) (segments path).

(** What a path below [root] adds to [root]. *)
Definition below (K : list string) (trailing : bool) : string :=
  match K with
  | [] => if trailing then "/" else ""
  | _ => "/" +:+ JS.join "/" K +:+ (if trailing then "/" else "")
  end.

End PathSpec.

(** ** The checkout form *)

Module Form.
Import Helpers Widget TextSpec.

(** The inline marks of the three fields of the checkout form: whether the
    input carries the class [invalid] and its hint is displayed. *)
Record marks : Type := Marks {
  name_invalid : bool;
  buyerEmail_invalid : bool;
  recipientEmail_invalid : bool
}.

(** The form as [renderCheckout] writes it. *)
Definition unmarked : marks := Marks false false false.

(** The three calls of [setInvalid] in the submit handler, on the trimmed
    values of the fields; each call sets or removes the mark of its field,
    whatever the mark was. *)
Definition setInvalid (name buyerEmail recipientEmail : string) : marks :=
  {| name_invalid := Nat.eqb (String.length (trim name)) 0;
     buyerEmail_invalid := negb (isValidEmail (trim buyerEmail));
     recipientEmail_invalid := negb (isValidEmail (trim recipientEmail)) |}.

(** The [click] handler of [#ow-submit] with the marks it leaves: the
    fields are marked first, then the handler returns or submits.  The
    marks are those of the form while it is on the page ([None] once
    another screen has replaced it). *)
Definition click_submit (name buyerEmail recipientEmail : string)
    (st : state) : option (state * option marks) :=
  match step (ClickSubmit name buyerEmail recipientEmail) st with
  | Some st' =>
      Some (st',
            match screen st' with
            | CheckoutScreen _ _ => Some (setInvalid name buyerEmail recipientEmail)
            | _ => None
            end)
  | None => None
  end.

(** A character of the ASCII range. *)
Definition is_ascii (c : ascii) : bool := (nat_of_ascii c <? 128)%nat.

(** The value of a field is made of ASCII characters. *)
Definition ascii_text (s : string) : bool := all_chars is_ascii s.

End Form.

(** * Properties *)

(** ** Tactics *)

(** Unfolds the handlers down to the record of the state. *)
Ltac unfold_handlers :=
  unfold Widget.openModal, Widget.closeModal, Widget.runHealthCheck,
    Widget.submit, Widget.submit_failed, Widget.settle_purchase,
    Widget.after_selection, Widget.settle_health_json, Widget.setView_,
    Widget.setView,
    Widget.fetchOffersOnce, Widget.settle_catalog, Widget.show_error,
    JS.bind in *.

Ltac handler_cases :=
  unfold_handlers; cbn in *;
  repeat (first [progress simplify_eq | case_match];
          cbn in *; try discriminate; try reflexivity).

(** ** [escapeHtml] *)

Section EscapeHtml.
Import Helpers EscapeSpec.

(** [String.append] is kept folded by [simpl]; these two equations unfold
    it one constructor at a time. *)
Lemma append_nil (s : string) : EmptyString +:+ s = s.
Proof. reflexivity. Qed.

Lemma append_cons (x : ascii) (a b : string) :
  String x a +:+ b = String x (a +:+ b).
Proof. reflexivity. Qed.

Lemma append_assoc (a b c : string) : (a +:+ b) +:+ c = a +:+ (b +:+ c).
Proof.
  induction a as [|x a IH]; [reflexivity|].
  rewrite !append_cons. f_equal. exact IH.
Qed.

Lemma replaceAll_append c r (s1 s2 : string) :
  replaceAll c r (s1 +:+ s2) = replaceAll c r s1 +:+ replaceAll c r s2.
Proof.
  induction s1 as [|a s1 IH]; [reflexivity|].
  rewrite append_cons. cbn [replaceAll].
  destruct (Ascii.eqb a c); rewrite IH.
  - symmetry. apply append_assoc.
  - reflexivity.
Qed.

(** The five passes act on a single character like [entity_of]. *)
Lemma escapeHtml_single (a : ascii) :
  escapeHtml (Some (String a EmptyString)) = entity_of a.
Proof.
  destruct a as [[] [] [] [] [] [] [] []]; vm_compute; reflexivity.
Qed.

Lemma escapeHtml_cons (a : ascii) (s : string) :
  escapeHtml (Some (String a s)) = entity_of a +:+ escapeHtml (Some s).
Proof.
  rewrite <- escapeHtml_single. unfold escapeHtml, string_or_empty.
  change (String a s) with (String a EmptyString +:+ s).
  now rewrite !replaceAll_append.
Qed.

(** The sequence of global replacements is a single pass over the input. *)
Lemma escapeHtml_escape_each (s : string) :
  escapeHtml (Some s) = escape_each s.
Proof.
  induction s as [|a s IH]; [reflexivity|].
  rewrite escapeHtml_cons, IH. reflexivity.
Qed.

Lemma entity_of_cases (c : ascii) :
  (entity_of c = String c EmptyString /\ is_markup c = false /\ Ascii.eqb c "&" = false)
  \/ In (entity_of c) ["&amp;"; "&lt;"; "&gt;"; "&quot;"; "&#039;"].
Proof.
  destruct c as [[] [] [] [] [] [] [] []]; vm_compute; intuition.
Qed.

Lemma entity_prefix_safe (e t : string) :
  In e ["&amp;"; "&lt;"; "&gt;"; "&quot;"; "&#039;"] ->
  no_markup (e +:+ t) = no_markup t
  /\ ampersands_escaped (e +:+ t) = ampersands_escaped t.
Proof.
  cbn [In].
  intros [<- | [<- | [<- | [<- | [<- | []]]]]]; split; reflexivity.
Qed.

Lemma escape_each_safe (s : string) :
  no_markup (escape_each s) = true /\ ampersands_escaped (escape_each s) = true.
Proof.
  induction s as [|c s [IH1 IH2]]; [split; reflexivity|].
  cbn [escape_each].
  destruct (entity_of_cases c) as [(-> & Hm & Ha) | Hin].
  - rewrite append_cons, append_nil. cbn [no_markup ampersands_escaped].
    rewrite Hm, Ha, IH1, IH2. split; reflexivity.
  - destruct (entity_prefix_safe _ (escape_each s) Hin) as [-> ->].
    split; assumption.
Qed.

(** C10. For every input (a string, or an absent value, which is read as
    the empty string) the output of [escapeHtml] is the input with each of
    [&], [<], [>], the double quote and the single quote replaced by its
    HTML entity; it holds none of [<], [>], the double quote, the single
    quote, and each of its ampersands starts one of the five entities. *)
Theorem escapeHtml_output_is_markup_free (str : option string) :
  escapeHtml str = escape_each (string_or_empty str)
  /\ no_markup (escapeHtml str) = true
  /\ ampersands_escaped (escapeHtml str) = true.
Proof.
  assert (E : escapeHtml str = escape_each (string_or_empty str)).
  { destruct str as [s|]; [apply escapeHtml_escape_each | reflexivity]. }
  rewrite E. split; [reflexivity | apply escape_each_safe].
Qed.

End EscapeHtml.

(** ** [sanitizeErrorCode] *)

Section Sanitize.
Import Helpers SanitizeSpec.

Lemma map_string_compose (f g : ascii -> ascii) (s : string) :
  map_string g (map_string f s) = map_string (fun c => g (f c)) s.
Proof. induction s as [|a s IH]; cbn; [reflexivity | now rewrite IH]. Qed.

Lemma map_string_ext (f g : ascii -> ascii) (s : string) :
  (forall c, f c = g c) -> map_string f s = map_string g s.
Proof. intros E. induction s as [|a s IH]; cbn; [reflexivity | now rewrite E, IH]. Qed.

(** After upper-casing, the class [A-Z0-9_] is the class of letters, digits
    and the underscore. *)
Lemma word_char_upper (c : ascii) :
  (if word_char (upper_char c) then upper_char c else "_"%char) = sanitize_char c.
Proof.
  destruct c as [[] [] [] [] [] [] [] []]; vm_compute; reflexivity.
Qed.

Lemma includes_known_In (s : string) :
  includes known (Some s) = true <-> In s known.
Proof.
  unfold includes. rewrite existsb_exists. split.
  - intros (x & Hx & E). apply String.eqb_eq in E. now subst.
  - intros H. exists s. split; [exact H | apply String.eqb_refl].
Qed.

(** C8. [sanitizeErrorCode] agrees with the sanitization of the
    specification on every identifier: allow-listed codes map to
    themselves, any other non-empty string to its upper-casing with each
    character outside letters, digits and underscore replaced by an
    underscore, an empty or absent identifier to [UNKNOWN]; in particular
    on the three examples of the specification. *)
Theorem sanitizeErrorCode_meets_spec :
  (forall msg : option string, sanitizeErrorCode msg = sanitize_spec msg)
  /\ sanitizeErrorCode (Some "weird code!") = "WEIRD_CODE_"
  /\ sanitizeErrorCode (Some "") = "UNKNOWN"
  /\ sanitizeErrorCode None = "UNKNOWN"
  /\ sanitizeErrorCode (Some "NETWORK") = "NETWORK".
Proof.
  split; [| repeat split; reflexivity].
  intros [s|]; [| reflexivity].
  unfold sanitize_spec.
  destruct (String.eqb s "") eqn:Es.
  - apply String.eqb_eq in Es. subst s. reflexivity.
  - unfold sanitizeErrorCode.
    destruct (in_dec String.string_dec s known) as [Hin | Hnin].
    + apply includes_known_In in Hin. rewrite Hin. reflexivity.
    + destruct (includes known (Some s)) eqn:Ei.
      { apply includes_known_In in Ei. contradiction. }
      unfold or_UNKNOWN. rewrite Es.
      unfold replace_non_word, toUpperCase.
      rewrite map_string_compose.
      rewrite (map_string_ext _ sanitize_char s word_char_upper).
      destruct s as [|a s]; [discriminate Es | reflexivity].
Qed.

End Sanitize.

(** ** The catalog read: classification of failures *)

Section CatalogRead.
Import JS Widget Scenario.

(** With a non-success status the parsed code is thrown inside the [try]
    whose [catch] is empty, so every such read ends in [REQUEST_FAILED]. *)
Lemma fetchOffersOnce_non_ok (resp_json : result json) :
  fetchOffersOnce_response false resp_json = Throw "REQUEST_FAILED".
Proof.
  unfold fetchOffersOnce_response. cbn.
  destruct resp_json as [data|e]; cbn; [destruct (has_error data)|]; reflexivity.
Qed.

(** With a success status every exception of the second [try], the
    [BAD_RESPONSE] one included, is replaced by [PARSE]. *)
Lemma fetchOffersOnce_ok_throws_PARSE (resp_json : result json) (e : string) :
  fetchOffersOnce_response true resp_json = Throw e -> e = "PARSE".
Proof.
  unfold fetchOffersOnce_response. cbn.
  destruct resp_json as [data|e']; cbn.
  - destruct (negb (truthy data) || negb (isArray (get data "offers"))); cbn; congruence.
  - congruence.
Qed.

(** C1, on the code: every catalog read that receives a non-success
    status fails with [REQUEST_FAILED], whatever its body; so does the read
    that receives status 401 with the body [{error: "UNAUTHORISED"}], and
    the error view that follows the first open shows [REQUEST_FAILED]. *)
Theorem fetchOffersOnce_drops_remote_code :
  (forall resp_json : result json,
     fetchOffersOnce_response false resp_json = Throw "REQUEST_FAILED")
  /\ fetchOffersOnce_response false (Return unauthorised_body)
     = Throw "REQUEST_FAILED"
  /\ option_map screen
       (run [ClickFab; Settle 0 (FetchResponse false);
             Settle 0 (JsonParsed unauthorised_body)] init)
     = Some (ErrorScreen None "REQUEST_FAILED").
Proof.
  split; [exact fetchOffersOnce_non_ok|]. split; vm_compute; reflexivity.
Qed.

(** C4, on the code: no catalog read fails with [BAD_RESPONSE]; the read
    that receives a success status with a JSON body that has no [offers]
    fails with [PARSE], and the error view that follows the first open
    shows [PARSE]. *)
Theorem fetchOffersOnce_reports_PARSE_for_bad_response :
  (forall (ok : bool) (resp_json : result json),
     fetchOffersOnce_response ok resp_json <> Throw "BAD_RESPONSE")
  /\ fetchOffersOnce_response true (Return no_offers_body) = Throw "PARSE"
  /\ option_map screen
       (run [ClickFab; Settle 0 (FetchResponse true);
             Settle 0 (JsonParsed no_offers_body)] init)
     = Some (ErrorScreen None "PARSE").
Proof.
  split; [| split; vm_compute; reflexivity].
  intros [|] resp_json H.
  - apply fetchOffersOnce_ok_throws_PARSE in H. discriminate H.
  - rewrite fetchOffersOnce_non_ok in H. discriminate H.
Qed.

End CatalogRead.

(** ** The static file handler *)

Section StaticFiles.
Import Server Scenario.

(** C9, on the code: with the public root [/srv/app/public], the request
    path [/..%2Fpublic-old%2Fsecret.txt] passes the [startsWith] test and
    the file [/srv/app/public-old/secret.txt], which is not within the
    root, is streamed. *)
Theorem serveStatic_streams_sibling_directory :
  PUBLIC_DIR "/srv/app" = "/srv/app/public"
  /\ serveStatic fs_with_sibling "/srv/app" "/..%2Fpublic-old%2Fsecret.txt"
     = Some (Stream200 "/srv/app/public-old/secret.txt")
  /\ within_root (PUBLIC_DIR "/srv/app") "/srv/app/public-old/secret.txt" = false.
Proof. repeat split; vm_compute; reflexivity. Qed.

End StaticFiles.

(** ** The selection *)

Section Selection.
Import JS Widget SelectionSpec Scenario.

Variable offers : list json.
Hypothesis maxima : positive_maxima offers.

Lemma found_max_positive id offer mx :
  find_offer offers id = Some offer -> maxPerOrder offer = Some mx ->
  (0 < inject_Z mx)%Q.
Proof.
  intros Hf Hm. apply find_some in Hf as [Hin _].
  change 0%Q with (inject_Z 0). rewrite <- Zlt_Qlt. eapply maxima; eauto.
Qed.

Lemma qty_of_nonneg (m : gmap string Q) id :
  within_bounds offers m -> (0 <= qty_of m id)%Q.
Proof.
  intros Hm. unfold qty_of. destruct (m !! id) as [q|] eqn:E; [|lra].
  destruct (Qeq_bool q 0); [lra|]. destruct (Hm id q E). lra.
Qed.

Lemma qty_of_le_max (m : gmap string Q) id offer mx :
  within_bounds offers m ->
  find_offer offers id = Some offer -> maxPerOrder offer = Some mx ->
  (qty_of m id <= inject_Z mx)%Q.
Proof.
  intros Hm Hf Hx. pose proof (found_max_positive _ _ _ Hf Hx) as Hpos.
  unfold qty_of. destruct (m !! id) as [q|] eqn:E; [|lra].
  destruct (Qeq_bool q 0); [lra|].
  destruct (Hm id q E) as [_ Hb]. eauto.
Qed.

(** Storing a positive quantity that respects the bound of its offer. *)
Lemma within_bounds_insert (m : gmap string Q) id q :
  within_bounds offers m ->
  (0 < q)%Q ->
  (forall offer mx, find_offer offers id = Some offer ->
                    maxPerOrder offer = Some mx -> (q <= inject_Z mx)%Q) ->
  within_bounds offers (<[id := q]> m).
Proof.
  intros Hm Hq Hb id' q' Hl.
  apply lookup_insert_Some in Hl as [[<- <-] | [_ Hl]]; [split; assumption|].
  exact (Hm id' q' Hl).
Qed.

Lemma within_bounds_delete (m : gmap string Q) id :
  within_bounds offers m -> within_bounds offers (delete id m).
Proof.
  intros Hm id' q' Hl. apply lookup_delete_Some in Hl as [_ Hl].
  exact (Hm id' q' Hl).
Qed.

Lemma increment_within_bounds (m m' : gmap string Q) id :
  within_bounds offers m -> increment offers id m = Return m' ->
  within_bounds offers m'.
Proof.
  intros Hm. unfold increment.
  destruct (find_offer offers id) as [offer|] eqn:Hf; [|discriminate].
  intros [= <-]. pose proof (qty_of_nonneg m id Hm) as H0.
  apply within_bounds_insert; [assumption | |].
  - apply Q.min_glb_lt; [lra|].
    destruct (maxPerOrder offer) as [mx|] eqn:Hx; [|lra].
    eapply found_max_positive; eauto.
  - intros offer' mx Hf' Hx. rewrite Hf in Hf'. injection Hf' as <-.
    rewrite Hx. apply Q.le_min_r.
Qed.

Lemma decrement_within_bounds (m : gmap string Q) id :
  within_bounds offers m -> within_bounds offers (decrement id m).
Proof.
  intros Hm. unfold decrement.
  destruct (Qeq_bool (Qmax 0 (qty_of m id - 1)) 0) eqn:E.
  - now apply within_bounds_delete.
  - apply Qeq_bool_neq in E.
    pose proof (Q.le_max_l 0 (qty_of m id - 1)) as Hge.
    apply within_bounds_insert; [assumption | |].
    + destruct (Qle_lt_or_eq _ _ Hge) as [Hlt | Heq]; [exact Hlt|].
      exfalso. apply E. symmetry. exact Heq.
    + intros offer mx Hf Hx.
      pose proof (qty_of_le_max m id offer mx Hm Hf Hx).
      pose proof (found_max_positive _ _ _ Hf Hx).
      apply Q.max_lub; lra.
Qed.

Lemma safe_quantity_nonneg (v : JSNumber.jsnum) : (0 <= safe_quantity v)%Q.
Proof.
  destruct v as [| |q]; cbn; try lra.
  destruct (Qle_bool 0 q) eqn:E; [now apply Qle_bool_iff | lra].
Qed.

Lemma setQuantity_within_bounds (m m' : gmap string Q) id inp_value :
  within_bounds offers m -> setQuantity offers id inp_value m = Return m' ->
  within_bounds offers m'.
Proof.
  intros Hm. unfold setQuantity.
  destruct (find_offer offers id) as [offer|] eqn:Hf; [|discriminate].
  set (safe := safe_quantity _).
  pose proof (safe_quantity_nonneg (JSNumber.Number (Helpers.trim inp_value))) as Hs.
  fold safe in Hs.
  set (mx' := match maxPerOrder offer with Some mx => inject_Z mx | None => safe end).
  assert (Hmx : (0 <= mx')%Q).
  { unfold mx'. destruct (maxPerOrder offer) as [mx|] eqn:Hx; [|exact Hs].
    apply Qlt_le_weak. eapply found_max_positive; eauto. }
  destruct (Qeq_bool (Qmin safe mx') 0) eqn:E; intros [= <-].
  - now apply within_bounds_delete.
  - apply Qeq_bool_neq in E.
    apply within_bounds_insert; [assumption | |].
    + assert (Hge : (0 <= Qmin safe mx')%Q) by (apply Q.min_glb; assumption).
      destruct (Qle_lt_or_eq _ _ Hge) as [Hlt | Heq]; [exact Hlt|].
      exfalso. apply E. symmetry. exact Heq.
    + intros offer' mx Hf' Hx. rewrite Hf in Hf'. injection Hf' as <-.
      unfold mx'. rewrite Hx. apply Q.le_min_r.
Qed.

Lemma apply_action_within_bounds (m : gmap string Q) (a : action) :
  within_bounds offers m -> within_bounds offers (apply_action offers m a).
Proof.
  intros Hm. destruct a as [id | id | id v]; cbn.
  - destruct (increment offers id m) eqn:E; [|assumption].
    eapply increment_within_bounds; eauto.
  - now apply decrement_within_bounds.
  - destruct (setQuantity offers id v m) eqn:E; [|assumption].
    eapply setQuantity_within_bounds; eauto.
Qed.

Lemma run_actions_within_bounds (actions : list action) (m : gmap string Q) :
  within_bounds offers m -> within_bounds offers (run_actions offers actions m).
Proof.
  revert m. induction actions as [|a actions IH]; intros m Hm; [exact Hm|].
  cbn. apply IH. now apply apply_action_within_bounds.
Qed.

End Selection.

Section SelectionClaims.
Import JS Widget SelectionSpec Scenario.

Lemma offer1_positive_maxima : positive_maxima [offer1].
Proof.
  intros o mx [<- | []] H. vm_compute in H. injection H as <-. lia.
Defined.




End SelectionClaims.

(** ** Opening, closing and the stored order *)

Section ViewController.
Import JS Widget Flight Scenario.

(** [isOpen] is set by the first open and never reset. *)
Lemma step_isOpen_stays (e : event) (st st' : state) :
  step e st = Some st' -> isOpen st = true -> isOpen st' = true.
Proof.
  intros Hs Ho. destruct e; cbn in Hs; unfold settle in Hs;
    handler_cases; try assumption.
Qed.

Lemma step_unopened_is_blank (e : event) (st st' : state) :
  unopened_is_blank st -> step e st = Some st' -> unopened_is_blank st'.
Proof.
  intros Inv Hs. destruct (isOpen st) eqn:Ho.
  { intros Ho'. rewrite (step_isOpen_stays e st st' Hs Ho) in Ho'. discriminate. }
  destruct (Inv Ho) as (Hscr & Hmod & Hp).
  destruct e; cbn in Hs; try (rewrite Hmod in Hs; discriminate Hs).
  - (* ClickFab *)
    injection Hs as <-. unfold openModal. rewrite Ho.
    intros Ho'. cbn in Ho'. unfold_handlers. cbn in Ho'.
    destruct (offersCache st); cbn in Ho'; discriminate.
  - (* Dismiss *)
    injection Hs as <-. intros _. cbn. auto.
  - (* PassiveTimer *)
    destruct (timerArmed st); [|discriminate]. injection Hs as <-.
    intros _. cbn. repeat split; try assumption.
    apply Forall_app. split; [assumption | repeat constructor].
  - (* Settle *)
    unfold settle in Hs.
    destruct (pending st !! i) as [t|] eqn:Hi; [|discriminate].
    pose proof (Forall_lookup_1 _ _ _ _ Hp Hi) as Ht.
    destruct t; try discriminate Ht;
      destruct o as [|[]| |]; cbn in Hs; try discriminate Hs;
      injection Hs as <-; intros _; cbn; repeat split; try assumption;
      try (apply Forall_delete; assumption);
      try (apply Forall_insert; [assumption | reflexivity]).
Qed.

Lemma run_unopened_is_blank (es : list event) (st st' : state) :
  unopened_is_blank st -> run es st = Some st' -> unopened_is_blank st'.
Proof.
  revert st. induction es as [|e es IH]; intros st Inv Hr; cbn in Hr.
  - injection Hr as <-. exact Inv.
  - destruct (step e st) as [st1|] eqn:Hs; [|discriminate].
    eapply IH; [|exact Hr]. eapply step_unopened_is_blank; eauto.
Qed.

Lemma init_unopened_is_blank : unopened_is_blank init.
Proof. intros _. repeat split. constructor. Qed.

Lemma step_confirm_screen_in_confirm_view (e : event) (st st' : state) :
  confirm_screen_in_confirm_view st -> step e st = Some st' ->
  confirm_screen_in_confirm_view st'.
Proof.
  intros Inv Hs order Hscr. unfold confirm_screen_in_confirm_view in Inv.
  destruct e; cbn in Hs; unfold settle in Hs;
    handler_cases; try discriminate; eauto; try congruence.
Qed.

Lemma run_confirm_screen_in_confirm_view (es : list event) (st st' : state) :
  confirm_screen_in_confirm_view st -> run es st = Some st' ->
  confirm_screen_in_confirm_view st'.
Proof.
  revert st. induction es as [|e es IH]; intros st Inv Hr; cbn in Hr.
  - injection Hr as <-. exact Inv.
  - destruct (step e st) as [st1|] eqn:Hs; [|discriminate].
    eapply IH; [|exact Hr]. eapply step_confirm_screen_in_confirm_view; eauto.
Qed.

(** C3, as amended.  In every state that the widget reaches with the
    confirm screen on the page, dismissing the widget and opening it again
    shows the view that was last set, the confirm view with the same
    order, not the catalog view; the selection mapping and the stored
    order are unchanged by the close and the reopen. *)
Theorem reopen_shows_last_view (es : list event) (st : state) (order : json) :
  run es init = Some st ->
  screen st = ConfirmScreen order ->
  exists st',
    run [Dismiss; ClickFab] st = Some st'
    /\ modalOpen st' = true
    /\ view st' = VConfirm
    /\ screen st' = ConfirmScreen order
    /\ selected st' = selected st
    /\ lastOrder st' = lastOrder st.
Proof.
  intros Hr Hscr.
  pose proof (run_unopened_is_blank es init st init_unopened_is_blank Hr) as Hblank.
  assert (Hview : view st = VConfirm).
  { eapply (run_confirm_screen_in_confirm_view es init st); eauto.
    intros o Ho. discriminate Ho. }
  assert (Ho : isOpen st = true).
  { destruct (isOpen st) eqn:E; [reflexivity|].
    destruct (Hblank E) as [Hb _]. rewrite Hb in Hscr. discriminate. }
  exists (set_modalOpen true (closeModal st)).
  split.
  - cbn. unfold openModal. cbn. rewrite Ho. reflexivity.
  - cbn. auto.
Qed.

Lemma reopen_shows_last_view_witness :
  option_map screen (run to_confirm init) = Some (ConfirmScreen order_body)
  /\ exists st st',
       run to_confirm init = Some st
       /\ run [Dismiss; ClickFab] st = Some st'
       /\ view st' = VConfirm
       /\ screen st' = ConfirmScreen order_body
       /\ selected st' = selected st.
Proof.
  split; [vm_compute; reflexivity|].
  destruct (run to_confirm init) as [st|] eqn:Hr; [|vm_compute in Hr; discriminate Hr].
  assert (Hscr : screen st = ConfirmScreen order_body).
  { vm_compute in Hr. injection Hr as <-. reflexivity. }
  destruct (reopen_shows_last_view to_confirm st order_body Hr Hscr)
    as (st' & H1 & _ & H2 & H3 & H4 & _).
  exists st, st'. auto.
Defined.

(** C3, as stated, fails: after the confirm view was dismissed, the next
    open shows the confirm view with the order, not the catalog view. *)
Lemma reopen_after_confirm_is_not_catalog :
  option_map (fun st => (view st, screen st))
    (run (to_confirm ++ [Dismiss; ClickFab]) init)
  = Some (VConfirm, ConfirmScreen order_body).
Proof. vm_compute. reflexivity. Qed.

Lemma submitPurchase_returns_body (ok : bool) (resp_json : result json) (res : json) :
  submitPurchase_response ok resp_json = Return res -> resp_json = Return res.
Proof.
  unfold submitPurchase_response, bind, tryCatch.
  destruct resp_json as [data|e]; [|discriminate].
  destruct ok; cbn; destruct (has_error data); congruence.
Qed.

(** The stored order changes only when [submitPurchase] returns. *)
Lemma step_lastOrder (e : event) (st st' : state) :
  step e st = Some st' ->
  lastOrder st' <> lastOrder st ->
  exists i ok res,
    e = Settle i (JsonParsed res)
    /\ pending st !! i = Some (PurchaseJson ok)
    /\ submitPurchase_response ok (Return res) = Return res
    /\ lastOrder st' = res.
Proof.
  intros Hs Hne. destruct e; cbn in Hs; unfold settle in Hs;
    handler_cases; try (exfalso; apply Hne; reflexivity);
    match goal with
    | Hn : negb ?ok = false, He : has_error ?a = false
      |- context [Settle ?i (JsonParsed ?a)] =>
        exists i, ok, a; rewrite Hn, He; auto
    end.
Qed.

(** Every way in which [submitPurchase] throws leads to the error view
    and leaves the stored order as it is. *)
Lemma purchase_throw_keeps_order (st : state) (j : nat) :
  (forall p, pending st !! j = Some (PurchaseFetch p) ->
     exists st',
       step (Settle j FetchRejected) st = Some st'
       /\ view st' = VError /\ lastErrorMessage st' = "NETWORK"
       /\ lastOrder st' = lastOrder st)
  /\ (forall ok o rj e,
        pending st !! j = Some (PurchaseJson ok) ->
        as_json_result o = Some rj ->
        submitPurchase_response ok rj = Throw e ->
        exists st',
          step (Settle j o) st = Some st'
          /\ view st' = VError /\ lastErrorMessage st' = message_or_UNKNOWN e
          /\ lastOrder st' = lastOrder st).
Proof.
  split.
  - intros p Hp. eexists. cbn [step]. unfold settle. rewrite Hp.
    split; [reflexivity|]. repeat split.
  - intros ok o rj e Hp Ho He. eexists. cbn [step]. unfold settle. rewrite Hp.
    destruct o; try discriminate Ho; cbn [as_json_result] in Ho |- *;
      injection Ho as <-; rewrite He; (split; [reflexivity|]); repeat split.
Qed.

(** When [submitPurchase] returns, its result is stored before the confirm
    view is rendered, and stays stored when the rendering throws. *)
Lemma purchase_return_stores_order (st : state) (j : nat) (ok : bool) (res : json) :
  pending st !! j = Some (PurchaseJson ok) ->
  submitPurchase_response ok (Return res) = Return res ->
  exists st',
    step (Settle j (JsonParsed res)) st = Some st'
    /\ lastOrder st' = res
    /\ view st'
       = (if truthy res then
            match renderConfirm res with
            | Return _ => VConfirm
            | Throw _ => VError
            end
          else VConfirm).
Proof.
  intros Hp Hr. eexists. cbn [step]. unfold settle. rewrite Hp.
  cbn [as_json_result]. rewrite Hr. split; [reflexivity|].
  unfold settle_purchase, setView. cbn [lastOrder set_view set_lastOrder bind].
  destruct (truthy res); [|split; reflexivity].
  unfold bind. destruct (renderConfirm res); split; reflexivity.
Qed.

(** C6, as amended.  When the response to a purchase has a success status
    and its body carries a non-empty string as error code, [submitPurchase]
    fails with that code, the view becomes the error view showing the
    sanitized form of that code (the code itself when it is on the
    allow-list, as [QTY_LIMIT] is), and the stored order is unchanged.  On
    every path on which [submitPurchase] throws (no response, a body that
    is not JSON, a failure status, a truthy error field) the view becomes
    the error view and the stored order is unchanged.  The stored order is
    overwritten exactly when [submitPurchase] returns, with what it
    returns, before the confirm view is rendered: it stays overwritten when
    that rendering throws and the error view is shown. *)
Theorem failed_purchase_keeps_order
    (st : state) (i : nat) (data : json) (c : string) :
  pending st !! i = Some (PurchaseJson true) ->
  get data "error" = Some (JStr c) ->
  c <> "" ->
  (exists st',
     step (Settle i (JsonParsed data)) st = Some st'
     /\ submitPurchase_response true (Return data) = Throw c
     /\ lastErrorMessage st' = c
     /\ view st' = VError
     /\ screen st' = ErrorScreen None (Helpers.sanitizeErrorCode (Some c))
     /\ (In c Helpers.known -> screen st' = ErrorScreen None c)
     /\ lastOrder st' = lastOrder st)
  /\ (forall st0 j p,
        pending st0 !! j = Some (PurchaseFetch p) ->
        exists st1,
          step (Settle j FetchRejected) st0 = Some st1
          /\ view st1 = VError /\ lastErrorMessage st1 = "NETWORK"
          /\ lastOrder st1 = lastOrder st0)
  /\ (forall st0 j ok o rj e,
        pending st0 !! j = Some (PurchaseJson ok) ->
        as_json_result o = Some rj ->
        submitPurchase_response ok rj = Throw e ->
        exists st1,
          step (Settle j o) st0 = Some st1
          /\ view st1 = VError /\ lastErrorMessage st1 = message_or_UNKNOWN e
          /\ lastOrder st1 = lastOrder st0)
  /\ (forall st0 j ok res,
        pending st0 !! j = Some (PurchaseJson ok) ->
        submitPurchase_response ok (Return res) = Return res ->
        exists st1,
          step (Settle j (JsonParsed res)) st0 = Some st1
          /\ lastOrder st1 = res
          /\ view st1
             = (if truthy res then
                  match renderConfirm res with
                  | Return _ => VConfirm
                  | Throw _ => VError
                  end
                else VConfirm))
  /\ (forall e st0 st1,
        step e st0 = Some st1 ->
        lastOrder st1 <> lastOrder st0 ->
        exists j ok res,
          e = Settle j (JsonParsed res)
          /\ pending st0 !! j = Some (PurchaseJson ok)
          /\ submitPurchase_response ok (Return res) = Return res
          /\ lastOrder st1 = res).
Proof.
  intros Hi Herr Hc.
  split; [| split; [intros st0 j; apply purchase_throw_keeps_order
          | split; [intros st0 j; apply purchase_throw_keeps_order
          | split; [exact purchase_return_stores_order | exact step_lastOrder]]]].
  assert (Hc' : String.eqb c "" = false) by (now apply String.eqb_neq).
  assert (Hthrow : submitPurchase_response true (Return data) = Throw c).
  { unfold submitPurchase_response, has_error. cbn. rewrite Herr. cbn.
    destruct data; cbn in Herr; try discriminate Herr. cbn. rewrite Hc'. reflexivity. }
  assert (Hmsg : message_or_UNKNOWN c = c).
  { unfold message_or_UNKNOWN. now rewrite Hc'. }
  assert (Hknown : In c Helpers.known -> Helpers.sanitizeErrorCode (Some c) = c).
  { intros Hin. apply includes_known_In in Hin.
    unfold Helpers.sanitizeErrorCode. rewrite Hin. reflexivity. }
  eexists. cbn [step]. unfold settle. rewrite Hi. cbn [as_json_result].
  rewrite Hthrow. split; [reflexivity|]. split; [reflexivity|].
  unfold settle_purchase, submit_failed, setView_, setView, show_error.
  cbn [set_view set_screen set_lastErrorMessage set_pending lastErrorMessage
       view screen lastOrder].
  rewrite Hmsg. repeat split.
  intros Hin. rewrite (Hknown Hin). reflexivity.
Qed.

Lemma failed_purchase_keeps_order_witness :
  pending awaiting_purchase_body !! 0%nat = Some (PurchaseJson true)
  /\ get qty_limit_body "error" = Some (JStr "QTY_LIMIT")
  /\ "QTY_LIMIT" <> ""
  /\ exists st',
       step (Settle 0 (JsonParsed qty_limit_body)) awaiting_purchase_body = Some st'
       /\ view st' = VError
       /\ screen st' = ErrorScreen None "QTY_LIMIT"
       /\ lastOrder st' = lastOrder awaiting_purchase_body.
Proof.
  assert (H1 : pending awaiting_purchase_body !! 0%nat = Some (PurchaseJson true))
    by (vm_compute; reflexivity).
  assert (H2 : get qty_limit_body "error" = Some (JStr "QTY_LIMIT")) by reflexivity.
  assert (H3 : "QTY_LIMIT" <> "") by discriminate.
  split; [exact H1|]. split; [exact H2|]. split; [exact H3|].
  destruct (failed_purchase_keeps_order awaiting_purchase_body 0 qty_limit_body
              "QTY_LIMIT" H1 H2 H3) as [(st' & Hs & _ & _ & Hv & _ & Hk & Ho) _].
  exists st'. repeat split; try assumption.
  apply Hk. cbn. auto.
Defined.

(** C6, as stated, fails, in three ways.  A submission can fail with the
    stored order overwritten: a purchase answered with a success status and
    an order whose [giftCards] holds [null] ends on the error view, and the
    stored order, [null] until then, is that body.  An error field is not
    always a failure: the body [{error: "", orderId}] with a success status
    is stored as the order and the confirm view is shown.  And the code
    shown is not always the code of the body: [qty_limit] is shown as
    [QTY_LIMIT]. *)
Lemma failing_submission_overwrites_order :
  option_map lastOrder (run to_purchase_response init) = Some JNull
  /\ option_map (fun st => (view st, lastOrder st))
       (run (to_purchase_response ++ [Settle 0 (JsonParsed null_card_body)]) init)
     = Some (VError, null_card_body)
  /\ null_card_body <> JNull
  /\ get empty_error_body "error" = Some (JStr "")
  /\ option_map (fun st => (view st, screen st, lastOrder st))
       (run (to_purchase_response ++ [Settle 0 (JsonParsed empty_error_body)]) init)
     = Some (VConfirm, ConfirmScreen empty_error_body, empty_error_body)
  /\ option_map (fun st => (lastErrorMessage st, view st, screen st, lastOrder st))
       (run (to_purchase_response ++ [Settle 0 (JsonParsed lower_case_error_body)]) init)
     = Some ("qty_limit", VError, ErrorScreen None "QTY_LIMIT", JNull)
  /\ "QTY_LIMIT" <> "qty_limit".
Proof.
  split; [vm_compute; reflexivity|]. split; [vm_compute; reflexivity|].
  split; [discriminate|]. split; [reflexivity|].
  split; [vm_compute; reflexivity|]. split; [vm_compute; reflexivity | discriminate].
Qed.

End ViewController.

(** ** Single-flight *)

Section CatalogCache.
Import JS Widget Flight Scenario.

Lemma filter_length_snoc {A} (f : A -> bool) (l : list A) (x : A) :
  length (List.filter f (l ++ [x]))
  = (length (List.filter f l) + (if f x then 1 else 0))%nat.
Proof.
  rewrite List.filter_app, length_app. cbn. destruct (f x); reflexivity.
Qed.

Lemma filter_length_delete {A} (f : A -> bool) (l : list A) (i : nat) (x : A) :
  l !! i = Some x ->
  length (List.filter f l)
  = (length (List.filter f (delete i l)) + (if f x then 1 else 0))%nat.
Proof.
  revert i. induction l as [|y l IH]; intros [|i] Hl; try discriminate.
  - cbn in Hl. injection Hl as ->. cbn. destruct (f x); cbn; lia.
  - cbn in Hl. cbn. destruct (f y); cbn; rewrite (IH i Hl); reflexivity.
Qed.

Lemma filter_length_insert {A} (f : A -> bool) (l : list A) (i : nat) (x y : A) :
  l !! i = Some x ->
  (length (List.filter f (<[i := y]> l)) + (if f x then 1 else 0)
   = length (List.filter f l) + (if f y then 1 else 0))%nat.
Proof.
  revert i. induction l as [|z l IH]; intros [|i] Hl; try discriminate.
  - cbn in Hl. injection Hl as ->. cbn. destruct (f x), (f y); cbn; lia.
  - cbn in Hl. cbn. specialize (IH i Hl).
    destruct (f z); cbn; [f_equal|]; exact IH.
Qed.

(** No handler of the page calls [fetchOffersOnce] while one of its reads
    is outstanding: the handlers that call it belong to controls of the
    catalog, checkout and error screens, and the loading screen replaces
    them until the read settles. *)
Lemma step_reads_serialised (e : event) (st st' : state) :
  unopened_is_blank st ->
  reads_serialised st -> step e st = Some st' -> reads_serialised st'.
Proof.
  unfold reads_serialised, outstanding_reads, purchases_in_flight, cached.
  intros Hblank (I1 & I2 & I3 & I4) Hs.
  assert (I5 : isOpen st = false -> screen st = Blank).
  { intros Ho. now destruct (Hblank Ho). }
  clear Hblank.
  destruct e; cbn in Hs; unfold settle in Hs.
  all: try (destruct (pending st !! i) as [t|] eqn:Hi; [|discriminate];
    pose proof (filter_length_delete is_catalog_read _ _ _ Hi) as Dc;
    pose proof (filter_length_delete is_purchase _ _ _ Hi) as Dp;
    pose proof (fun y => filter_length_insert is_catalog_read _ _ _ y Hi) as Ic;
    pose proof (fun y => filter_length_insert is_purchase _ _ _ y Hi) as Ip).
  all: handler_cases.
  all: rewrite ?List.filter_app, ?length_app in *; cbn in *.
  all: try (specialize (Ic (CatalogJson k ok));
            specialize (Ip (CatalogJson k ok)); cbn in Ic, Ip).
  all: try (specialize (Ic (PurchaseJson ok));
            specialize (Ip (PurchaseJson ok)); cbn in Ic, Ip).
  all: try (specialize (Ic HealthJson); specialize (Ip HealthJson); cbn in Ic, Ip).
  all: try match goal with
         | H : isOpen ?s = false, I : isOpen ?s = false -> _ |- _ =>
             specialize (I H); rewrite I in *; cbn in *
         end.
  all: repeat split; intros; try lia; try congruence; try reflexivity.
  all: destruct (screen st); cbn in *; intuition (try lia; try congruence).
Qed.

Lemma run_reads_serialised (es : list event) (st st' : state) :
  unopened_is_blank st -> reads_serialised st ->
  run es st = Some st' -> reads_serialised st'.
Proof.
  revert st. induction es as [|e es IH]; intros st Hb Inv Hr; cbn in Hr.
  - injection Hr as <-. exact Inv.
  - destruct (step e st) as [st1|] eqn:Hs; [|discriminate].
    eapply IH; [| |exact Hr].
    + eapply step_unopened_is_blank; eauto.
    + eapply step_reads_serialised; eauto.
Qed.

Lemma init_reads_serialised : reads_serialised init.
Proof. repeat split; cbn; intros; try lia; discriminate. Qed.

(** C2, as amended.  [fetchOffersOnce] starts no remote read exactly when
    the cache is populated, and then hands the cached catalog to its
    caller; a call made while the cache is not populated starts a remote
    read of its own, whatever reads are outstanding, and so adds one to
    the reads that are outstanding: nothing is shared between callers.
    In the widget at most one of its reads is outstanding all the same,
    because no handler of the page calls it while a read is outstanding. *)
Theorem fetchOffersOnce_reads_unless_cached (es : list event) (reached : state) :
  run es init = Some reached ->
  (outstanding_reads reached <= 1)%nat
  /\ forall (k : continuation) (st : state),
       match offersCache st with
       | None =>
           pending (fetchOffersOnce k st) = pending st ++ [CatalogFetch k]
           /\ reads (fetchOffersOnce k st) = S (reads st)
           /\ outstanding_reads (fetchOffersOnce k st) = S (outstanding_reads st)
       | Some c =>
           fetchOffersOnce k st = settle_catalog k (Return c) st
           /\ pending (fetchOffersOnce k st) = pending st
           /\ reads (fetchOffersOnce k st) = reads st
       end.
Proof.
  intros Hr. split.
  - apply (run_reads_serialised es init reached
             init_unopened_is_blank init_reads_serialised Hr).
  - intros k st. unfold fetchOffersOnce. destruct (offersCache st) as [c|].
    + split; [reflexivity|]. destruct k; split; reflexivity.
    + cbn. split; [reflexivity|]. split; [reflexivity|].
      unfold outstanding_reads. cbn. rewrite filter_length_snoc. cbn. lia.
Qed.

Lemma fetchOffersOnce_reads_unless_cached_witness :
  run [ClickFab] init = Some (openModal init)
  /\ outstanding_reads (openModal init) = 1%nat
  /\ outstanding_reads (fetchOffersOnce ForCheckout (openModal init)) = 2%nat.
Proof.
  assert (Hr : run [ClickFab] init = Some (openModal init)) by reflexivity.
  destruct (fetchOffersOnce_reads_unless_cached [ClickFab] (openModal init) Hr)
    as [_ H].
  specialize (H ForCheckout (openModal init)).
  change (offersCache (openModal init)) with (@None catalog) in H.
  cbv iota in H. destruct H as (_ & _ & H).
  split; [exact Hr|]. split; [reflexivity | rewrite H; reflexivity].
Defined.

(** C2, as stated, fails: a second call made while the read of the first
    is outstanding, the cache being empty, starts a second remote read. *)
Lemma second_call_starts_second_read :
  offersCache (fetchOffersOnce ForCatalog init) = None
  /\ pending (fetchOffersOnce ForCatalog init) = [CatalogFetch ForCatalog]
  /\ pending (fetchOffersOnce ForCheckout (fetchOffersOnce ForCatalog init))
     = [CatalogFetch ForCatalog; CatalogFetch ForCheckout]
  /\ reads (fetchOffersOnce ForCheckout (fetchOffersOnce ForCatalog init)) = 2%nat
  /\ outstanding_reads
       (fetchOffersOnce ForCheckout (fetchOffersOnce ForCatalog init)) = 2%nat.
Proof. repeat split; reflexivity. Qed.

End CatalogCache.

(** ** The health probe *)

Section HealthMonitor.
Import JS Widget Flight Scenario.

(** C5, as amended.  Triggering [runHealthCheck] while a probe is
    outstanding marks the status as checking and puts one more probe in
    flight; the outstanding probe is not superseded: it stays in flight
    and, when it settles after the new trigger, its outcome is written to
    the status ([NETWORK] when no response was obtained, [ok] on a success
    status). *)
Theorem runHealthCheck_supersedes_nothing (st : state) (i : nat) :
  pending st !! i = Some HealthFetch ->
  pending (runHealthCheck st) !! i = Some HealthFetch
  /\ pending (runHealthCheck st) = pending st ++ [HealthFetch]
  /\ probes_in_flight (runHealthCheck st) = S (probes_in_flight st)
  /\ status (health (runHealthCheck st)) = Checking
  /\ (exists st', step (Settle i FetchRejected) (runHealthCheck st) = Some st'
                  /\ health st' = Health Err (JStr "NETWORK"))
  /\ (exists st', step (Settle i (FetchResponse true)) (runHealthCheck st) = Some st'
                  /\ health st' = Health Ok (JStr "")).
Proof.
  intros Hi.
  assert (Hi' : pending (runHealthCheck st) !! i = Some HealthFetch).
  { cbn. apply lookup_app_l_Some. exact Hi. }
  split; [exact Hi'|]. split; [reflexivity|]. split.
  { unfold probes_in_flight. cbn. rewrite filter_length_snoc. cbn. lia. }
  split; [reflexivity|].
  split; eexists; cbn [step]; unfold settle; rewrite Hi'; split; reflexivity.
Qed.

Lemma runHealthCheck_supersedes_nothing_witness :
  pending (runHealthCheck init) !! 0%nat = Some HealthFetch
  /\ probes_in_flight (runHealthCheck (runHealthCheck init)) = 2%nat
  /\ (exists st',
        step (Settle 0 FetchRejected) (runHealthCheck (runHealthCheck init)) = Some st'
        /\ health st' = Health Err (JStr "NETWORK")).
Proof.
  split; [reflexivity|].
  destruct (runHealthCheck_supersedes_nothing (runHealthCheck init) 0 eq_refl)
    as (_ & _ & Hn & _ & Hrej & _).
  split; [rewrite Hn; reflexivity | exact Hrej].
Defined.

(** C5, as stated, fails: the passive probe and the probe of the first
    open are in flight together; the newer one settles first with a
    success status, and the older one then overwrites [ok] with
    [NETWORK]. *)
Lemma older_probe_overwrites_newer :
  option_map probes_in_flight (run [PassiveTimer; ClickFab] init) = Some 2%nat
  /\ option_map pending (run [PassiveTimer; ClickFab] init)
     = Some [HealthFetch; CatalogFetch ForCatalog; HealthFetch]
  /\ option_map health
       (run [PassiveTimer; ClickFab; Settle 2 (FetchResponse true)] init)
     = Some (Health Ok (JStr ""))
  /\ option_map health
       (run [PassiveTimer; ClickFab; Settle 2 (FetchResponse true);
             Settle 0 FetchRejected] init)
     = Some (Health Err (JStr "NETWORK")).
Proof. repeat split; vm_compute; reflexivity. Qed.

End HealthMonitor.

(** * Further properties of the code *)

(** ** The helpers *)

Section HelperProperties.
Import Helpers EscapeSpec TextSpec Widget.

Lemma all_chars_map_string (f : ascii -> bool) (g : ascii -> ascii) (s : string) :
  (forall c, f (g c) = true) -> all_chars f (map_string g s) = true.
Proof.
  intros H. induction s as [|a s IH]; cbn; [reflexivity|]. now rewrite H, IH.
Qed.

Lemma replace_non_word_chars (c : ascii) :
  word_char (if word_char c then c else "_"%char) = true.
Proof. destruct (word_char c) eqn:E; [exact E | reflexivity]. Qed.

Lemma map_string_empty (g : ascii -> ascii) (s : string) :
  String.eqb (map_string g s) "" = String.eqb s "".
Proof. destruct s; reflexivity. Qed.

Lemma known_are_tokens (s : string) : In s known -> is_token s = true.
Proof.
  cbn. intros H.
  repeat (destruct H as [<- | H]; [vm_compute; reflexivity|]). contradiction.
Qed.

(** What the error view can show. *)
Lemma sanitizeErrorCode_token (msg : option string) :
  is_token (sanitizeErrorCode msg) = true.
Proof.
  unfold sanitizeErrorCode.
  destruct (includes known msg) eqn:Ei.
  - destruct msg as [s|]; [|discriminate Ei].
    apply known_are_tokens. now apply includes_known_In.
  - cbn zeta.
    destruct (String.eqb (replace_non_word (toUpperCase (or_UNKNOWN msg))) "") eqn:E;
      [reflexivity|].
    unfold is_token. rewrite E. cbn.
    unfold replace_non_word. apply all_chars_map_string. apply replace_non_word_chars.
Qed.

(** X1. Whatever identifier it is given, [sanitizeErrorCode] returns a
    non-empty string made of the characters [A-Z], [0-9] and [_] only. *)
Theorem sanitizeErrorCode_returns_a_token (msg : option string) :
  is_token (sanitizeErrorCode msg) = true.
Proof. apply sanitizeErrorCode_token. Qed.

Lemma word_char_upper_fixed (c : ascii) :
  word_char c = true -> (if word_char (upper_char c) then upper_char c else "_"%char) = c.
Proof.
  destruct c as [[] [] [] [] [] [] [] []]; vm_compute; intros H;
    first [reflexivity | discriminate H].
Qed.

Lemma token_fixed (s : string) :
  all_chars word_char s = true -> replace_non_word (toUpperCase s) = s.
Proof.
  unfold replace_non_word, toUpperCase. rewrite map_string_compose.
  induction s as [|a s IH]; cbn; [reflexivity|].
  intros H. apply andb_true_iff in H as [Ha Hs].
  rewrite (word_char_upper_fixed a Ha), (IH Hs). reflexivity.
Qed.

(** X2. Sanitizing is idempotent: a sanitized code is left as it is by a
    second sanitization. *)
Theorem sanitizeErrorCode_idempotent (msg : option string) :
  sanitizeErrorCode (Some (sanitizeErrorCode msg)) = sanitizeErrorCode msg.
Proof.
  pose proof (sanitizeErrorCode_token msg) as Ht.
  set (t := sanitizeErrorCode msg) in *.
  unfold is_token in Ht. apply andb_true_iff in Ht as [Hne Hall].
  apply negb_true_iff in Hne.
  unfold sanitizeErrorCode at 1.
  destruct (includes known (Some t)); [reflexivity|].
  unfold or_UNKNOWN. rewrite Hne, (token_fixed t Hall), Hne. reflexivity.
Qed.

Lemma replaceAll_absent (c : ascii) (r s : string) :
  all_chars (fun a => negb (Ascii.eqb a c)) s = true -> replaceAll c r s = s.
Proof.
  induction s as [|a s IH]; cbn; [reflexivity|].
  intros H. apply andb_true_iff in H as [Ha Hs].
  apply negb_true_iff in Ha. rewrite Ha, (IH Hs). reflexivity.
Qed.

Lemma no_markup_no_dquote (s : string) :
  no_markup s = true -> all_chars (fun a => negb (Ascii.eqb a dquote)) s = true.
Proof.
  induction s as [|a s IH]; cbn; [reflexivity|].
  intros H. apply andb_true_iff in H as [Ha Hs]. rewrite (IH Hs), andb_true_r.
  unfold is_markup in Ha.
  destruct (Ascii.eqb a "<"), (Ascii.eqb a ">"), (Ascii.eqb a dquote);
    cbn in Ha |- *; first [reflexivity | discriminate Ha].
Qed.

(** X3. [escapeAttr] and [escapeHtml] are the same function: the second
    replacement of double quotes in [escapeAttr] finds none. *)
Theorem escapeAttr_is_escapeHtml (str : option string) :
  escapeAttr str = escapeHtml str.
Proof.
  unfold escapeAttr. apply replaceAll_absent. apply no_markup_no_dquote.
  assert (E : escapeHtml str = escape_each (string_or_empty str)).
  { destruct str as [s|]; [apply escapeHtml_escape_each | reflexivity]. }
  rewrite E. apply escape_each_safe.
Qed.

End HelperProperties.

Section EscapeInjective.
Import Helpers EscapeSpec.

Lemma entity_of_char (c : ascii) :
  (entity_of c = String c EmptyString /\ Ascii.eqb c "&" = false)
  \/ (c = "&"%char /\ entity_of c = "&amp;")
  \/ (c = "<"%char /\ entity_of c = "&lt;")
  \/ (c = ">"%char /\ entity_of c = "&gt;")
  \/ (c = dquote /\ entity_of c = "&quot;")
  \/ (c = "'"%char /\ entity_of c = "&#039;").
Proof.
  destruct c as [[] [] [] [] [] [] [] []]; vm_compute; tauto.
Qed.

Lemma entity_of_prefix_free (c1 c2 : ascii) (r1 r2 : string) :
  entity_of c1 +:+ r1 = entity_of c2 +:+ r2 -> c1 = c2 /\ r1 = r2.
Proof.
  intros H.
  destruct (entity_of_char c1) as [[E1 N1] | [[-> E1] | [[-> E1] | [[-> E1] | [[-> E1] | [-> E1]]]]]];
  destruct (entity_of_char c2) as [[E2 N2] | [[-> E2] | [[-> E2] | [[-> E2] | [[-> E2] | [-> E2]]]]]];
    rewrite ?E1, ?E2 in H; rewrite ?append_cons, ?append_nil in H;
    try (injection H as ? ?; subst; first [discriminate N1 | discriminate N2]);
    try (injection H as ? ?; subst; split; reflexivity);
    try discriminate H;
    try (injection H as ?; subst; split; reflexivity).
Qed.

Lemma escape_each_injective (a b : string) :
  escape_each a = escape_each b -> a = b.
Proof.
  revert b. induction a as [|x a IH]; intros [|y b] H; cbn [escape_each] in H.
  - reflexivity.
  - exfalso. destruct (entity_of_char y) as [[E _] | [[_ E] | [[_ E] | [[_ E] | [[_ E] | [_ E]]]]]];
      rewrite E in H; rewrite ?append_cons in H; discriminate H.
  - exfalso. destruct (entity_of_char x) as [[E _] | [[_ E] | [[_ E] | [[_ E] | [[_ E] | [_ E]]]]]];
      rewrite E in H; rewrite ?append_cons in H; discriminate H.
  - apply entity_of_prefix_free in H as [-> H]. now rewrite (IH b H).
Qed.

(** X4. [escapeHtml] loses nothing: two different strings have different
    escaped forms (so the text a browser decodes is the text that was
    escaped). *)
Theorem escapeHtml_keeps_strings_apart (a b : string) :
  a <> b -> escapeHtml (Some a) <> escapeHtml (Some b).
Proof.
  intros Hne H. apply Hne. apply escape_each_injective.
  now rewrite <- !escapeHtml_escape_each.
Qed.

Lemma escapeHtml_keeps_strings_apart_witness :
  "<" <> "&lt;" /\ escapeHtml (Some "<") <> escapeHtml (Some "&lt;").
Proof.
  assert (H : "<" <> "&lt;") by discriminate.
  split; [exact H | exact (escapeHtml_keeps_strings_apart "<" "&lt;" H)].
Defined.

End EscapeInjective.

(** ** The validator *)

Section Validator.
Import Helpers TextSpec Widget.

Lemma dot_then_char_shape (s : string) :
  dot_then_char s = true ->
  exists m e q, s = m +:+ String "." (String e q)
                /\ all_chars plain m = true /\ plain e = true.
Proof.
  induction s as [|c s IH]; cbn; [discriminate|].
  intros H. apply andb_true_iff in H as [Hc H].
  apply orb_true_iff in H as [H | H].
  - apply andb_true_iff in H as [Hdot Hs]. apply Ascii.eqb_eq in Hdot. subst c.
    destruct s as [|e q]; [discriminate Hs|]. cbn in Hs.
    exists EmptyString, e, q. repeat split. exact Hs.
  - destruct (IH H) as (m & e & q & -> & Hm & He).
    exists (String c m), e, q. rewrite append_cons. repeat split; [|exact He].
    cbn. unfold plain at 1. now rewrite Hc, Hm.
Qed.

Lemma at_scan_shape (before : bool) (s : string) :
  at_scan before s = true ->
  (before = true /\ exists rest, s = String "@" rest /\ domain_part rest = true)
  \/ exists p c rest, s = p +:+ String c (String "@" rest)
                      /\ plain c = true /\ domain_part rest = true.
Proof.
  revert before. induction s as [|c s IH]; intros before; cbn; [discriminate|].
  intros H. apply orb_true_iff in H as [H | H].
  - apply andb_true_iff in H as [H Hd]. apply andb_true_iff in H as [Hb Hat].
    apply Ascii.eqb_eq in Hat. subst c. left. split; [exact Hb|]. eauto.
  - right. destruct (IH _ H) as [[Hc (rest & -> & Hd)] | (p & c' & rest & -> & Hc' & Hd)].
    + exists EmptyString, c, rest. repeat split; assumption.
    + exists (String c p), c', rest. rewrite append_cons. repeat split; assumption.
Qed.

Lemma dot_then_char_intro (m : string) (e : ascii) (q : string) :
  all_chars plain m = true -> plain e = true ->
  dot_then_char (m +:+ String "." (String e q)) = true.
Proof.
  intros Hm He. induction m as [|a m IH].
  - rewrite append_nil. cbn. unfold plain in He. now rewrite He.
  - rewrite append_cons. cbn in Hm |- *.
    apply andb_true_iff in Hm as [Ha Hm]. unfold plain in Ha.
    rewrite Ha, (IH Hm). cbn. apply orb_true_r.
Qed.

Lemma at_scan_intro (before : bool) (p : string) (c : ascii) (rest : string) :
  plain c = true -> domain_part rest = true ->
  at_scan before (p +:+ String c (String "@" rest)) = true.
Proof.
  intros Hc Hd. revert before. induction p as [|a p IH]; intros before.
  - rewrite append_nil. cbn. unfold plain in Hc. rewrite Hc, Hd. cbn.
    apply orb_true_r.
  - rewrite append_cons. cbn. rewrite IH. apply orb_true_r.
Qed.

(** X5. [isValidEmail] accepts exactly the strings that hold, somewhere, a
    character, [@], one or more characters, a dot and a character, none of
    them a line terminator: the matches of [/.+@.+\..+/]. *)
Theorem isValidEmail_accepts_the_address_shape (email : string) :
  isValidEmail email = true <-> has_address_shape email.
Proof.
  unfold isValidEmail, has_address_shape. split.
  - intros H. apply at_scan_shape in H as [[Hf _] | (p & c & rest & -> & Hc & Hd)];
      [discriminate Hf|].
    destruct rest as [|d rest]; [discriminate Hd|]. cbn in Hd.
    apply andb_true_iff in Hd as [Hd Hdot].
    destruct (dot_then_char_shape _ Hdot) as (m & e & q & -> & Hm & He).
    exists p, c, d, m, e, q. repeat split; assumption.
  - intros (p & c & d & m & e & q & -> & Hc & Hd & Hm & He).
    apply at_scan_intro; [exact Hc|]. cbn. unfold plain in Hd. rewrite Hd. cbn.
    now apply dot_then_char_intro.
Qed.

End Validator.

(** ** The two remote operations *)

Section NetworkClient.
Import JS Widget Scenario.

Lemma error_code_is_thrown (data : json) (c : string) :
  get data "error" = Some (JStr c) -> c <> "" ->
  has_error data = true /\ Error_of (get data "error") = c.
Proof.
  intros Herr Hc. unfold has_error. rewrite Herr. cbn.
  destruct data; cbn in Herr; try discriminate Herr. cbn.
  apply String.eqb_neq in Hc. rewrite Hc. split; reflexivity.
Qed.

(** X6. [submitPurchase] returns the parsed body exactly when the status
    is a success one and the body has no truthy [error] field; a body that
    cannot be parsed gives [PARSE] whatever the status, and a body without a
    truthy [error] on a non-success status gives [REQUEST_FAILED]. *)
Theorem submitPurchase_classification (ok : bool) (resp_json : result json) :
  (forall res, submitPurchase_response ok resp_json = Return res
               <-> ok = true /\ resp_json = Return res /\ has_error res = false)
  /\ (forall e, resp_json = Throw e ->
                submitPurchase_response ok resp_json = Throw "PARSE")
  /\ (forall data, resp_json = Return data -> has_error data = false -> ok = false ->
                   submitPurchase_response ok resp_json = Throw "REQUEST_FAILED")
  /\ (forall data, resp_json = Return data -> has_error data = true ->
                   submitPurchase_response ok resp_json
                   = Throw (Error_of (get data "error"))).
Proof.
  unfold submitPurchase_response, bind, tryCatch.
  split; [|split; [|split]].
  - intros res. destruct resp_json as [data|e]; [|split; [discriminate | intros (_ & H & _); discriminate H]].
    destruct ok; cbn; destruct (has_error data) eqn:E; split;
      try discriminate; try (intros (H & _); discriminate H).
    + intros (_ & [= ->] & H). congruence.
    + intros [= ->]. auto.
    + intros (_ & [= ->] & _). reflexivity.
  - intros e ->. reflexivity.
  - intros data -> -> ->. reflexivity.
  - intros data -> ->. destruct ok; reflexivity.
Qed.

(** X7. A remote error code reaches the caller of [submitPurchase]
    verbatim on every status, success or not. *)
Theorem submitPurchase_passes_remote_code (ok : bool) (data : json) (c : string) :
  get data "error" = Some (JStr c) -> c <> "" ->
  submitPurchase_response ok (Return data) = Throw c.
Proof.
  intros Herr Hc. destruct (error_code_is_thrown data c Herr Hc) as [He Hm].
  unfold submitPurchase_response, bind, tryCatch. rewrite He, Hm.
  destruct ok; reflexivity.
Qed.

Lemma submitPurchase_passes_remote_code_witness :
  get unauthorised_body "error" = Some (JStr "UNAUTHORISED")
  /\ "UNAUTHORISED" <> ""
  /\ submitPurchase_response false (Return unauthorised_body) = Throw "UNAUTHORISED".
Proof.
  assert (H1 : get unauthorised_body "error" = Some (JStr "UNAUTHORISED")) by reflexivity.
  assert (H2 : "UNAUTHORISED" <> "") by discriminate.
  split; [exact H1|]. split; [exact H2|].
  exact (submitPurchase_passes_remote_code false unauthorised_body "UNAUTHORISED" H1 H2).
Defined.

(** X8. [fetchOffersOnce] succeeds exactly when the status is a success
    one and the body is a truthy value whose [offers] is an array; the
    catalog it caches then holds, in their order, the offers of that array
    that are truthy with a truthy [active], and no other. *)
Theorem fetchOffersOnce_caches_active_offers
    (ok : bool) (resp_json : result json) (c : catalog) :
  fetchOffersOnce_response ok resp_json = Return c
  <-> ok = true
      /\ exists data items,
           resp_json = Return data /\ truthy data = true
           /\ get data "offers" = Some (JArr items)
           /\ merchantId c = get data "merchantId"
           /\ offers c = List.filter active items.
Proof.
  unfold fetchOffersOnce_response, bind, tryCatch. split.
  - destruct ok; cbn; [|destruct resp_json as [d|e]; cbn; [destruct (has_error d)|]; discriminate].
    destruct resp_json as [data|e]; [|discriminate].
    destruct (truthy data) eqn:Ht; cbn; [|discriminate].
    destruct (get data "offers") as [[| | | |items|]|] eqn:Ho; cbn; try discriminate.
    intros [= <-]. split; [reflexivity|]. exists data, items. cbn. rewrite Ho. auto.
  - intros (-> & data & items & -> & Ht & Ho & Hm & Hf). cbn.
    rewrite Ht, Ho. cbn. destruct c as [mid offs]. cbn in Hm, Hf. now subst.
Qed.

End NetworkClient.

(** ** The catalog cache in the running widget *)

Section CacheInvariants.
Import JS Widget Flight MachineSpec TextSpec Scenario.

Lemma reachable_serialised (st : state) :
  reachable st -> unopened_is_blank st /\ reads_serialised st.
Proof.
  intros [es Hr]. split.
  - exact (run_unopened_is_blank es init st init_unopened_is_blank Hr).
  - exact (run_reads_serialised es init st init_unopened_is_blank
             init_reads_serialised Hr).
Qed.

Lemma run_app (es1 es2 : list event) (st : state) :
  run (es1 ++ es2) st
  = match run es1 st with Some st1 => run es2 st1 | None => None end.
Proof.
  revert st. induction es1 as [|e es1 IH]; intros st; cbn; [reflexivity|].
  destruct (step e st); [apply IH | reflexivity].
Qed.

Lemma reachable_run (es : list event) (st st' : state) :
  reachable st -> run es st = Some st' -> reachable st'.
Proof.
  intros [es0 H0] Hr. exists (es0 ++ es). now rewrite run_app, H0.
Qed.

Lemma reachable_step (e : event) (st st' : state) :
  reachable st -> step e st = Some st' -> reachable st'.
Proof.
  intros Hre Hs. apply (reachable_run [e] st st' Hre). cbn. now rewrite Hs.
Qed.

(** An invariant of the steps taken from reachable states holds in every
    reachable state. *)
Lemma reachable_ind (P : state -> Prop) :
  P init ->
  (forall e st st', reachable st -> P st -> step e st = Some st' -> P st') ->
  forall st, reachable st -> P st.
Proof.
  intros Hinit Hstep st [es Hr].
  assert (G : forall es st0 st1, reachable st0 -> P st0 ->
                                 run es st0 = Some st1 -> P st1).
  { clear es Hr. induction es as [|e es IH]; intros st0 st1 Hre HP Hr; cbn in Hr.
    - now injection Hr as <-.
    - destruct (step e st0) as [st2|] eqn:Hs; [|discriminate].
      apply (IH st2 st1); [eapply reachable_step; eauto | eauto | exact Hr]. }
  apply (G es init st); [exists []; reflexivity | exact Hinit | exact Hr].
Qed.

Lemma no_read_when_cached (st : state) (i : nat) (t : task) :
  reads_serialised st -> cached st = true -> pending st !! i = Some t ->
  is_catalog_read t = false.
Proof.
  intros (I1 & I2 & _) Hc Hi.
  pose proof (filter_length_delete is_catalog_read _ _ _ Hi) as D.
  unfold outstanding_reads in I1, I2.
  destruct (is_catalog_read t); [|reflexivity].
  assert (E : length (List.filter is_catalog_read (pending st)) = 1%nat) by lia.
  destruct (I2 E) as [Hn _]. congruence.
Qed.

Lemma step_cache_kept (e : event) (st st' : state) (c : catalog) :
  reads_serialised st -> offersCache st = Some c -> step e st = Some st' ->
  offersCache st' = Some c /\ reads st' = reads st.
Proof.
  intros Inv Hc Hs.
  assert (Hcached : cached st = true) by (unfold cached; now rewrite Hc).
  destruct e; cbn in Hs; unfold settle in Hs.
  all: try (destruct (pending st !! i) as [t|] eqn:Hi; [|discriminate];
            pose proof (no_read_when_cached st i t Inv Hcached Hi) as Hnr).
  all: handler_cases; try discriminate; auto.
Qed.

(** X9. Once the catalog is cached it is never replaced, and no remote
    read is started any more: in a state the widget reaches with a cached
    catalog, whatever events follow leave the cache and the number of
    reads as they are. *)
Theorem cache_is_immutable (es : list event) (st st' : state) (c : catalog) :
  reachable st -> offersCache st = Some c -> run es st = Some st' ->
  offersCache st' = Some c /\ reads st' = reads st.
Proof.
  revert st. induction es as [|e es IH]; intros st Hre Hc Hr; cbn in Hr.
  - injection Hr as <-. auto.
  - destruct (step e st) as [st1|] eqn:Hs; [|discriminate].
    destruct (reachable_serialised st Hre) as [_ Inv].
    destruct (step_cache_kept e st st1 c Inv Hc Hs) as [Hc1 Hr1].
    destruct (IH st1 (reachable_step e st st1 Hre Hs) Hc1 Hr) as [H1 H2].
    split; [exact H1 | congruence].
Qed.

End CacheInvariants.

Section ReachableStates.
Import JS Widget Flight MachineSpec Scenario States.

Lemma state_after_reachable (es : list event) :
  match run es init with Some _ => True | None => False end ->
  reachable (state_after es).
Proof.
  intros H. exists es. unfold state_after.
  destruct (run es init); [reflexivity | contradiction].
Defined.

Lemma catalog_shown_reachable : reachable catalog_shown.
Proof. apply state_after_reachable. vm_compute. exact I. Defined.

Lemma error_shown_reachable : reachable error_shown.
Proof. apply state_after_reachable. vm_compute. exact I. Defined.

Lemma checkout_shown_reachable : reachable checkout_shown.
Proof. apply state_after_reachable. vm_compute. exact I. Defined.

Lemma confirm_shown_reachable : reachable confirm_shown.
Proof. apply state_after_reachable. vm_compute. exact I. Defined.

Lemma awaiting_purchase_body_reachable : reachable awaiting_purchase_body.
Proof. exists to_purchase_response. vm_compute. reflexivity. Defined.

Lemma cache_is_immutable_witness :
  reachable catalog_shown
  /\ exists c st',
       offersCache catalog_shown = Some c
       /\ run [ClickInc "o1"; ClickCheckout; ClickBack; Dismiss; ClickFab]
              catalog_shown = Some st'
       /\ offersCache st' = Some c
       /\ reads st' = reads catalog_shown.
Proof.
  split; [exact catalog_shown_reachable|].
  destruct (offersCache catalog_shown) as [c|] eqn:Hc;
    [|vm_compute in Hc; discriminate Hc].
  destruct (run [ClickInc "o1"; ClickCheckout; ClickBack; Dismiss; ClickFab]
              catalog_shown) as [st'|] eqn:Hr;
    [|vm_compute in Hr; discriminate Hr].
  exists c, st'.
  destruct (cache_is_immutable _ catalog_shown st' c catalog_shown_reachable Hc Hr).
  auto.
Defined.

End ReachableStates.

(** ** The running widget *)

Section RunningWidget.
Import JS Widget Flight MachineSpec TextSpec Scenario States.

Local Arguments Helpers.sanitizeErrorCode : simpl never.

Ltac render_cases :=
  unfold renderConfirm in *; handler_cases.



Lemma fetchOffersOnce_response_active (ok : bool) (rj : result json) (c : catalog) :
  fetchOffersOnce_response ok rj = Return c ->
  Forall (fun o => active o = true) (offers c).
Proof.
  unfold fetchOffersOnce_response, bind, tryCatch.
  destruct ok; cbn; [|destruct rj as [d|e]; cbn; [destruct (has_error d)|]; discriminate].
  destruct rj as [data|e]; [|discriminate].
  destruct (negb (truthy data) || negb (isArray (get data "offers"))); [discriminate|].
  intros [= <-]. cbn. apply Forall_forall. intros o Ho.
  apply list_elem_of_In, filter_In in Ho. tauto.
Qed.

Lemma renderConfirm_returns (order : json) (scr : screen_content) :
  renderConfirm order = Return scr -> scr = ConfirmScreen order.
Proof. unfold renderConfirm. intros H. repeat case_match; congruence. Qed.

Lemma step_shows_cached_offers (e : event) (st st' : state) :
  reads_serialised st -> shows_cached_offers st -> step e st = Some st' ->
  shows_cached_offers st'.
Proof.
  intros Ser [Ia Is] Hs.
  assert (Hkeep : forall c, offersCache st = Some c -> offersCache st' = Some c).
  { intros c Hc. now destruct (step_cache_kept e st st' c Ser Hc Hs). }
  destruct e; cbn in Hs; unfold settle in Hs.
  all: handler_cases.
  all: try match goal with
         | H : renderConfirm _ = Return _ |- _ =>
             apply renderConfirm_returns in H; simplify_eq
         end.
  all: split;
    [ intros c0 Hc0; cbn in *; simplify_eq; eauto using fetchOffersOnce_response_active
    | intros offs [[r Hr] | [h Hr]]; cbn in *; simplify_eq; eauto 6 ].
  all: try match goal with
         | H : screen ?s = _ , Hr : screen ?s = _ |- _ => rewrite H in Hr; simplify_eq
         end.
  all: eauto 6.
  all: try solve [edestruct Is as (c1 & Hc1 & Ho1); [left; eauto|]; simplify_eq; eauto].
  all: try solve [edestruct Is as (c1 & Hc1 & Ho1); [right; eauto|]; simplify_eq; eauto].
Qed.

(** X11. In every state the widget reaches, the cached offers are all
    active (truthy, with a truthy [active]), and the offers of the catalog
    and checkout screens are the cached ones: an inactive offer is never
    cached, shown or counted. *)
Theorem only_active_offers_are_shown (st : state) :
  reachable st -> shows_cached_offers st.
Proof.
  apply reachable_ind.
  - split; [discriminate | intros offs [[r H] | [h H]]; discriminate H].
  - intros e st0 st1 Hre Inv Hs.
    destruct (reachable_serialised st0 Hre) as [_ Ser].
    exact (step_shows_cached_offers e st0 st1 Ser Inv Hs).
Qed.

Lemma only_active_offers_are_shown_witness :
  reachable checkout_shown /\ shows_cached_offers checkout_shown.
Proof.
  split; [exact checkout_shown_reachable|].
  exact (only_active_offers_are_shown checkout_shown checkout_shown_reachable).
Defined.

Lemma step_confirm_shows_stored_order (e : event) (st st' : state) :
  confirm_shows_stored_order st -> step e st = Some st' ->
  confirm_shows_stored_order st'.
Proof.
  unfold confirm_shows_stored_order. intros Inv Hs.
  destruct e; cbn in Hs; unfold settle in Hs.
  all: handler_cases.
  all: try match goal with
         | H : renderConfirm _ = Return _ |- _ =>
             apply renderConfirm_returns in H; simplify_eq
         end.
  all: intros order Ho; cbn in *; simplify_eq; eauto; try congruence.
Qed.

Lemma step_error_code_is_token (e : event) (st st' : state) :
  error_code_is_token st -> step e st = Some st' -> error_code_is_token st'.
Proof.
  unfold error_code_is_token. intros Inv Hs.
  destruct e; cbn in Hs; unfold settle in Hs.
  all: handler_cases.
  all: try match goal with
         | H : renderConfirm _ = Return _ |- _ =>
             apply renderConfirm_returns in H; simplify_eq
         end.
  all: intros msg0 code0 Ho; cbn in *; simplify_eq; eauto using sanitizeErrorCode_token;
    try congruence.
Qed.

Lemma step_purchases_serialised (e : event) (st st' : state) :
  unopened_is_blank st -> reads_serialised st -> purchases_serialised st ->
  step e st = Some st' -> purchases_serialised st'.
Proof.
  unfold reads_serialised, purchases_serialised, outstanding_reads,
    purchases_in_flight, cached.
  intros Hblank (I1 & I2 & I3 & I4) (P1 & P2) Hs.
  assert (I5 : isOpen st = false -> screen st = Blank).
  { intros Ho. now destruct (Hblank Ho). }
  clear Hblank.
  destruct e; cbn in Hs; unfold settle in Hs.
  all: try (destruct (pending st !! i) as [t|] eqn:Hi; [|discriminate];
    pose proof (filter_length_delete is_catalog_read _ _ _ Hi) as Dc;
    pose proof (filter_length_delete is_purchase _ _ _ Hi) as Dp;
    pose proof (fun y => filter_length_insert is_catalog_read _ _ _ y Hi) as Ic;
    pose proof (fun y => filter_length_insert is_purchase _ _ _ y Hi) as Ip).
  all: handler_cases.
  all: rewrite ?List.filter_app, ?length_app in *; cbn in *.
  all: try (specialize (Ic (CatalogJson k ok));
            specialize (Ip (CatalogJson k ok)); cbn in Ic, Ip).
  all: try (specialize (Ic (PurchaseJson ok));
            specialize (Ip (PurchaseJson ok)); cbn in Ic, Ip).
  all: try (specialize (Ic HealthJson); specialize (Ip HealthJson); cbn in Ic, Ip).
  all: try match goal with
         | H : isOpen ?s = false, I : isOpen ?s = false -> _ |- _ =>
             specialize (I H); rewrite I in *; cbn in *
         end.
  all: repeat split; intros; try lia; try congruence; try reflexivity.
  all: try (destruct (screen st); cbn in *; intuition (try lia; try congruence)).
Qed.

(** X12. In every state the widget reaches, the order on the confirm
    screen is the stored order, and it is a truthy value. *)
Theorem confirm_screen_shows_stored_order (st : state) :
  reachable st -> confirm_shows_stored_order st.
Proof.
  apply reachable_ind.
  - intros order H. discriminate H.
  - intros e st0 st1 _. apply step_confirm_shows_stored_order.
Qed.

Lemma confirm_screen_shows_stored_order_witness :
  reachable confirm_shown /\ confirm_shows_stored_order confirm_shown.
Proof.
  split; [exact confirm_shown_reachable|].
  exact (confirm_screen_shows_stored_order confirm_shown confirm_shown_reachable).
Defined.

(** X13. In every state the widget reaches, the code on the error screen
    is a non-empty string of the characters [A-Z], [0-9] and [_], whatever
    the remote party sent. *)
Theorem error_screen_shows_a_token (st : state) :
  reachable st -> error_code_is_token st.
Proof.
  apply reachable_ind.
  - intros message code H. discriminate H.
  - intros e st0 st1 _. apply step_error_code_is_token.
Qed.

Lemma error_screen_shows_a_token_witness :
  reachable error_shown /\ error_code_is_token error_shown.
Proof.
  split; [exact error_shown_reachable|].
  exact (error_screen_shows_a_token error_shown error_shown_reachable).
Defined.

(** X14. In every state the widget reaches, at most one purchase request
    is in flight, and while one is the loading screen is on the page: a
    purchase cannot be submitted twice. *)
Theorem purchases_are_serialised (st : state) :
  reachable st -> purchases_serialised st.
Proof.
  apply reachable_ind.
  - split; cbn; [lia | discriminate].
  - intros e st0 st1 Hre Inv Hs.
    destruct (reachable_serialised st0 Hre) as [Hb Ser].
    exact (step_purchases_serialised e st0 st1 Hb Ser Inv Hs).
Qed.

Lemma purchases_are_serialised_witness :
  reachable awaiting_purchase_body
  /\ purchases_in_flight awaiting_purchase_body = 1%nat
  /\ is_loading (screen awaiting_purchase_body) = true.
Proof.
  assert (H : purchases_in_flight awaiting_purchase_body = 1%nat)
    by (vm_compute; reflexivity).
  split; [exact awaiting_purchase_body_reachable|]. split; [exact H|].
  destruct (purchases_are_serialised awaiting_purchase_body
              awaiting_purchase_body_reachable) as [_ Hl].
  exact (Hl H).
Defined.

(** X15. The events of the health monitor (a trigger of a probe, the end
    of an [await] of a probe) change nothing of the catalog, checkout,
    confirm and error flow: visibility, cache, selection, view, error
    message, stored order and screen stay as they are. *)
Theorem health_events_leave_the_flow (e : event) (st st' : state) :
  is_health_event st e = true -> step e st = Some st' ->
  flow_of st' = flow_of st.
Proof.
  intros He Hs. destruct e; cbn in He; try discriminate He;
    cbn in Hs; unfold settle in Hs.
  all: try (destruct (pending st !! i) as [t|] eqn:Hi; [|discriminate];
            destruct t; try discriminate He).
  all: handler_cases.
Qed.

Lemma health_events_leave_the_flow_witness :
  is_health_event probing (Settle 0 FetchRejected) = true
  /\ exists st', step (Settle 0 FetchRejected) probing = Some st'
                 /\ health st' = Health Err (JStr "NETWORK")
                 /\ flow_of st' = flow_of probing.
Proof.
  assert (He : is_health_event probing (Settle 0 FetchRejected) = true)
    by (vm_compute; reflexivity).
  split; [exact He|].
  destruct (step (Settle 0 FetchRejected) probing) as [st'|] eqn:Hs;
    [|vm_compute in Hs; discriminate Hs].
  exists st'. split; [reflexivity|]. split.
  - vm_compute in Hs. injection Hs as <-. reflexivity.
  - exact (health_events_leave_the_flow _ probing st' He Hs).
Defined.

Lemma step_ignores_health (e : event) (a b : state) :
  main_of a = main_of b ->
  option_map main_of (step e a) = option_map main_of (step e b).
Proof.
  destruct a, b. unfold main_of. cbn. intros [= -> -> -> -> -> -> -> -> -> -> ->].
  destruct e; cbn; unfold settle; cbn.
  all: handler_cases.
  all: reflexivity.
Qed.

Lemma run_ignores_health (es : list event) (a b : state) :
  main_of a = main_of b ->
  option_map main_of (run es a) = option_map main_of (run es b).
Proof.
  revert a b. induction es as [|e es IH]; intros a b H.
  - cbn [run option_map]. f_equal. exact H.
  - cbn [run]. pose proof (step_ignores_health e a b H) as Hs.
    destruct (step e a) as [a'|], (step e b) as [b'|];
      cbn [option_map] in Hs; try discriminate Hs.
    + apply IH. congruence.
    + reflexivity.
Qed.

(** X16. The flow never reads the health record: from two states that
    differ in the health record only, every sequence of events is possible
    in both or in neither and leads to states that again differ in the
    health record only. *)
Theorem flow_ignores_health (es : list event) (st : state) (h : health_record) :
  option_map main_of (run es (set_health h st)) = option_map main_of (run es st).
Proof. apply run_ignores_health. reflexivity. Qed.

(** X17. Closing the widget cancels nothing: dismissing it and then
    letting an outstanding operation settle gives the state of settling
    first and dismissing then. *)
Theorem dismiss_commutes_with_settle (st : state) (i : nat) (o : outcome) :
  run [Dismiss; Settle i o] st = run [Settle i o; Dismiss] st.
Proof.
  cbn. unfold settle, closeModal. cbn.
  handler_cases.
Qed.

(** X18. Only the quantity controls of the catalog change the selection:
    no other event (closing, reopening, a purchase that succeeds or fails,
    a read, a probe) adds, removes or changes an entry. *)
Theorem selection_changes_only_by_its_controls (e : event) (st st' : state) :
  is_selection_event e = false -> step e st = Some st' ->
  selected st' = selected st.
Proof.
  intros He Hs. destruct e; try discriminate He; cbn in Hs; unfold settle in Hs.
  all: handler_cases.
Qed.

Lemma selection_changes_only_by_its_controls_witness :
  is_selection_event (Settle 0 (JsonParsed order_body)) = false
  /\ exists st',
       step (Settle 0 (JsonParsed order_body)) awaiting_purchase_body = Some st'
       /\ lastOrder st' = order_body
       /\ selected st' = selected awaiting_purchase_body.
Proof.
  split; [reflexivity|].
  destruct (step (Settle 0 (JsonParsed order_body)) awaiting_purchase_body)
    as [st'|] eqn:Hs; [|vm_compute in Hs; discriminate Hs].
  exists st'. split; [reflexivity|]. split.
  - vm_compute in Hs. injection Hs as <-. reflexivity.
  - exact (selection_changes_only_by_its_controls
             (Settle 0 (JsonParsed order_body)) awaiting_purchase_body st'
             eq_refl Hs).
Defined.

Lemma NoDup_fst_filter {A B : Type} (f : A * B -> bool) (l : list (A * B)) :
  NoDup (fst <$> l) -> NoDup (fst <$> List.filter f l).
Proof.
  induction l as [|x l IH]; [intros _; constructor|].
  rewrite fmap_cons. cbn [List.filter]. intros H.
  apply NoDup_cons in H as [Hx Hl].
  destruct (f x); [|exact (IH Hl)].
  rewrite fmap_cons. apply NoDup_cons. split; [|exact (IH Hl)].
  intros Hin. apply Hx.
  apply list_elem_of_fmap in Hin as [y [Hy Hin]].
  apply list_elem_of_fmap. exists y. split; [exact Hy|].
  apply list_elem_of_In in Hin. apply filter_In in Hin.
  apply list_elem_of_In. tauto.
Qed.

(** X19. On a checkout form whose fields hold ASCII text, the submit
    handler marks exactly the fields that fail their check: a name that is
    blank once trimmed, a buyer or recipient e-mail that [isValidEmail]
    does not accept once trimmed.  When some field is marked, no request is
    started and the view, the screen, the selection, the cache, the stored
    order and the outstanding operations stay as they are, the form staying
    on the page with those marks.  When none is, the loading view replaces
    the form and exactly one purchase request is started, whose body
    carries the trimmed fields and, once each and in some order, exactly
    the selected entries with a positive quantity. *)
Theorem submit_validates_before_sending
    (st st' : state) (shown : option Form.marks)
    (name buyerEmail recipientEmail : string) :
  Form.ascii_text name = true ->
  Form.ascii_text buyerEmail = true ->
  Form.ascii_text recipientEmail = true ->
  Form.click_submit name buyerEmail recipientEmail st = Some (st', shown) ->
  if valid_form name buyerEmail recipientEmail then
    Form.setInvalid name buyerEmail recipientEmail = Form.unmarked
    /\ shown = None
    /\ (exists items,
          pending st'
          = pending st ++
            [PurchaseFetch (Payload (Helpers.trim name) (Helpers.trim buyerEmail)
                                    (Helpers.trim recipientEmail) items)]
          /\ NoDup (fst <$> items)
          /\ forall id q,
               In (id, q) items <-> selected st !! id = Some q /\ (0 < q)%Q)
    /\ view st' = VLoading
    /\ screen st' = Loading "Submitting order..."
    /\ purchases_in_flight st' = S (purchases_in_flight st)
  else
    Form.setInvalid name buyerEmail recipientEmail <> Form.unmarked
    /\ shown = Some (Form.setInvalid name buyerEmail recipientEmail)
    /\ st' = st.
Proof.
  unfold valid_form, purchases_in_flight, Form.click_submit.
  intros _ _ _ Hs. cbn [step] in Hs.
  destruct (negb (modalOpen st)); [discriminate|].
  destruct (screen st) as [| | | |offs haveItems|] eqn:Escr; try discriminate.
  destruct haveItems; [|discriminate].
  unfold submit in Hs. rewrite andb_true_r in Hs.
  unfold Form.setInvalid, Form.unmarked in *.
  assert (Hlen : Nat.eqb (String.length (Helpers.trim name)) 0
                 = String.eqb (Helpers.trim name) "").
  { destruct (Helpers.trim name); reflexivity. }
  rewrite Hlen in *.
  destruct (String.eqb (Helpers.trim name) "");
    destruct (isValidEmail (Helpers.trim buyerEmail));
    destruct (isValidEmail (Helpers.trim recipientEmail));
    cbn [negb andb] in Hs |- *;
    try (rewrite Escr in Hs; injection Hs as <- <-;
         split; [discriminate | split; reflexivity]).
  cbn in Hs. injection Hs as <- <-. cbn.
  split; [reflexivity|]. split; [reflexivity|].
  split; [|repeat split; rewrite filter_length_snoc; cbn; lia].
  exists (getSelectedItems (selected st)). split; [reflexivity|].
  unfold getSelectedItems. split.
  - apply NoDup_fst_filter, NoDup_fst_map_to_list.
  - intros id q. rewrite filter_In, <- list_elem_of_In, elem_of_map_to_list.
    cbn [snd]. rewrite negb_true_iff. split; intros [H1 H2]; (split; [exact H1|]).
    + destruct (Qlt_le_dec 0 q) as [Hq|Hq]; [exact Hq|].
      apply Qle_bool_iff in Hq. congruence.
    + destruct (Qle_bool q 0) eqn:E; [|reflexivity].
      apply Qle_bool_iff in E. exfalso. exact (Qlt_not_le _ _ H2 E).
Qed.

Lemma submit_validates_before_sending_witness :
  Form.ascii_text "  " = true
  /\ Form.ascii_text "jane@acme" = true
  /\ Form.ascii_text "recipient@domain.com" = true
  /\ exists st' shown,
       Form.click_submit "  " "jane@acme" "recipient@domain.com" checkout_shown
       = Some (st', shown)
       /\ shown = Some (Form.Marks true true false)
       /\ st' = checkout_shown.
Proof.
  split; [reflexivity|]. split; [reflexivity|]. split; [reflexivity|].
  destruct (Form.click_submit "  " "jane@acme" "recipient@domain.com"
              checkout_shown) as [[st' shown]|] eqn:Hs;
    [|vm_compute in Hs; discriminate Hs].
  exists st', shown. split; [reflexivity|].
  destruct (submit_validates_before_sending checkout_shown st' shown "  "
              "jane@acme" "recipient@domain.com" eq_refl eq_refl eq_refl Hs)
    as (_ & Hm & Hst).
  split; [exact Hm | exact Hst].
Defined.

End RunningWidget.

(** ** Counting and pricing the selection *)

Section SelectionTotals.
Import JS Widget Subtotal Scenario.
Import JSNumber.

Lemma count_of_positive (m : gmap string Q) :
  positive_quantities m ->
  (0 <= countSelectedItems m)%Q
  /\ ((countSelectedItems m == 0)%Q <-> m = ∅).
Proof.
  unfold countSelectedItems, positive_quantities.
  apply (map_fold_weak_ind
           (fun r m => (forall id q, m !! id = Some q -> (0 < q)%Q) ->
                       (0 <= r)%Q /\ ((r == 0)%Q <-> m = ∅))).
  - intros _. split; [lra | split; reflexivity].
  - intros i x m0 r Hi IH Hpos.
    assert (Hx : (0 < x)%Q) by (apply (Hpos i); apply lookup_insert_eq).
    destruct IH as [Hr _].
    { intros id q Hl. apply (Hpos id). rewrite lookup_insert_ne; [exact Hl|].
      intros <-. rewrite Hi in Hl. discriminate. }
    split; [lra|]. split.
    + intros E. lra.
    + intros E. exfalso. apply (f_equal (fun m => m !! i)) in E.
      rewrite lookup_insert_eq, lookup_empty in E. discriminate.
Qed.

(** X20. When every stored quantity is positive, the count of selected
    items is 0 exactly when nothing is selected: the checkout button is
    disabled for the empty selection and for no other. *)
Theorem checkout_disabled_iff_nothing_selected (m : gmap string Q) :
  positive_quantities m ->
  Qeq_bool (countSelectedItems m) 0 = true <-> m = ∅.
Proof.
  intros Hpos. rewrite Qeq_bool_iff. now apply count_of_positive.
Qed.

Lemma checkout_disabled_iff_nothing_selected_witness :
  positive_quantities (<["o1" := 2%Q]> ∅)
  /\ Qeq_bool (countSelectedItems (<["o1" := 2%Q]> ∅)) 0 = false.
Proof.
  assert (Hpos : positive_quantities (<["o1" := 2%Q]> ∅)).
  { intros id q Hl. apply lookup_insert_Some in Hl as [[_ <-] | [_ Hl]]; [reflexivity|].
    rewrite lookup_empty in Hl. discriminate. }
  split; [exact Hpos|].
  destruct (Qeq_bool (countSelectedItems (<["o1" := 2%Q]> ∅)) 0) eqn:E; [|reflexivity].
  apply (checkout_disabled_iff_nothing_selected _ Hpos) in E.
  apply (f_equal (fun m => m !! "o1")) in E.
  rewrite lookup_insert_eq, lookup_empty in E. discriminate E.
Defined.

Global Instance same_equivalence : Equivalence same.
Proof.
  split.
  - intros [| |q]; cbn; auto. reflexivity.
  - intros [| |p] [| |q]; cbn; auto. intros H. now symmetry.
  - intros [| |p] [| |q] [| |r]; cbn; try tauto; try congruence.
    intros H1 H2. now rewrite H1.
Qed.

Lemma add_same (a a' b : jsnum) : same a a' -> same (add a b) (add a' b).
Proof.
  destruct a as [| |p], a' as [| |p'], b as [| |q]; cbn; try tauto;
    try (intros ->; destruct (Bool.eqb _ _); cbn; auto).
  intros H. now rewrite H.
Qed.

Lemma add_swap (y a b : jsnum) : same (add (add y a) b) (add (add y b) a).
Proof.
  destruct y as [|sy|py], a as [|sa|pa], b as [|sb|pb]; cbn; auto;
    try (destruct sy); try (destruct sa); try (destruct sb); cbn; auto.
  ring.
Qed.

Lemma add_entry_same (offers : list json) (id : string) (q : Q) :
  Proper (same ==> same) (add_entry offers id q).
Proof.
  intros a a' H. unfold add_entry.
  destruct (find_offer offers id); [now apply add_same | exact H].
Qed.

Lemma add_entry_swap (offers : list json) (i j : string) (p q : Q) (y : jsnum) :
  same (add_entry offers i p (add_entry offers j q y))
       (add_entry offers j q (add_entry offers i p y)).
Proof.
  unfold add_entry.
  destruct (find_offer offers i), (find_offer offers j);
    first [apply add_swap | reflexivity].
Qed.

(** X21. The subtotal is built entry by entry: selecting a further offer
    adds its quantity times the [amountMinor] of the offer found for its
    identifier, and adds nothing when no offer has that identifier; the
    subtotal of the empty selection is 0. *)
Theorem subtotal_adds_quantity_times_price
    (offers : list json) (m : gmap string Q) (id : string) (q : Q) :
  m !! id = None ->
  sumSelectedSubtotalMinor offers ∅ = Fin 0
  /\ same (sumSelectedSubtotalMinor offers (<[id := q]> m))
          (match find_offer offers id with
           | Some offer =>
               add (sumSelectedSubtotalMinor offers m)
                   (mul (ToNumber (get offer "amountMinor")) (Fin q))
           | None => sumSelectedSubtotalMinor offers m
           end).
Proof.
  intros Hid. split; [apply map_fold_empty|].
  unfold sumSelectedSubtotalMinor.
  rewrite (map_fold_insert same (add_entry offers) (Fin 0) id q m).
  - unfold add_entry. destruct (find_offer offers id); reflexivity.
  - intros j z. apply add_entry_same.
  - intros j1 j2 z1 z2 y _ _ _. apply add_entry_swap.
  - exact Hid.
Qed.

Lemma subtotal_adds_quantity_times_price_witness :
  (∅ : gmap string Q) !! "o1" = None
  /\ same (sumSelectedSubtotalMinor [offer1] (<["o1" := 2%Q]> ∅)) (Fin 1000).
Proof.
  assert (H : (∅ : gmap string Q) !! "o1" = None) by reflexivity.
  split; [exact H|].
  destruct (subtotal_adds_quantity_times_price [offer1] ∅ "o1" 2 H) as [_ Hs].
  etransitivity; [exact Hs|]. vm_compute. reflexivity.
Defined.

End SelectionTotals.

(** ** The relay service *)

Section RelayProperties.
Import JS Relay Scenario States.

(** X22. A request to one of the two API paths that is not a preflight and
    fails the key check is answered 401 [UNAUTHORISED] without the upstream
    being consulted (for the purchase path the method is checked first:
    only a POST reaches the key check); when no key is configured no
    request is answered 401 by the server itself. *)
Theorem unauthorised_requests_stop_at_the_relay
    (cfg : config) (up : upstream_outcome) (req : request) :
  checkKey cfg req = false ->
  (method req <> "OPTIONS" ->
   handleCatalog cfg up req = JsonResponse 401 (error_body "UNAUTHORISED"))
  /\ (method req = "POST" ->
      handlePurchase cfg up req = JsonResponse 401 (error_body "UNAUTHORISED"))
  /\ REQUIRED_KEY cfg <> ""
  /\ overlay_key req <> Some (REQUIRED_KEY cfg).
Proof.
  intros Hk. split; [|split; [|split]].
  - intros Hm. apply String.eqb_neq in Hm.
    unfold handleCatalog. rewrite Hm, Hk. reflexivity.
  - intros Hm. unfold handlePurchase. rewrite Hm, Hk. reflexivity.
  - intros E. unfold checkKey in Hk. rewrite E in Hk. discriminate Hk.
  - intros E. unfold checkKey in Hk. rewrite E in Hk.
    rewrite String.eqb_refl, andb_true_r in Hk.
    destruct (String.eqb (REQUIRED_KEY cfg) "") eqn:E0; [discriminate Hk|].
    cbn in Hk. congruence.
Qed.

Lemma unauthorised_requests_stop_at_the_relay_witness :
  checkKey (Config "DEMO_KEY_123" "https://bff.example.com")
           (widget_catalog_request "demo-merchant-1" "") = false
  /\ handleCatalog (Config "DEMO_KEY_123" "https://bff.example.com")
       (UpstreamReplied 200 catalog_body)
       (widget_catalog_request "demo-merchant-1" "")
     = JsonResponse 401 (error_body "UNAUTHORISED").
Proof.
  assert (Hk : checkKey (Config "DEMO_KEY_123" "https://bff.example.com")
                 (widget_catalog_request "demo-merchant-1" "") = false)
    by reflexivity.
  split; [exact Hk|].
  destruct (unauthorised_requests_stop_at_the_relay _
              (UpstreamReplied 200 catalog_body) _ Hk) as [H _].
  apply H. discriminate.
Defined.



Lemma widget_request_key (cfg : config) (K : string) (m : option string)
    (meth path : string) (b : body_read) :
  checkKey cfg (Request meth path m (if String.eqb K "" then None else Some K) b)
  = String.eqb (REQUIRED_KEY cfg) "" || String.eqb K (REQUIRED_KEY cfg).
Proof.
  unfold checkKey. cbn.
  destruct (String.eqb (REQUIRED_KEY cfg) "") eqn:E0; [reflexivity|]. cbn.
  destruct (String.eqb K "") eqn:EK; cbn.
  - apply String.eqb_eq in EK. subst K. rewrite String.eqb_sym. now rewrite E0.
  - rewrite EK. reflexivity.
Qed.

(** X24. The widget in front of the server that has no upstream: the
    first open ends on the catalog screen with no offer when the key that
    the widget sends passes the key check of the server (always, when no
    key is configured), and on the error screen with [REQUEST_FAILED]
    when it does not. *)
Theorem first_open_against_the_dev_server
    (cfg : config) (fs : Server.filesystem) (dirname : string)
    (up : upstream_outcome) (MERCHANT_ID API_KEY : string) :
  UPSTREAM_BFF_BASE cfg = "" ->
  exists o,
    fetch_outcome
      (route cfg fs dirname up (widget_catalog_request MERCHANT_ID API_KEY)) = Some o
    /\ option_map Widget.screen
         (Widget.run
            [Widget.ClickFab; Widget.Settle 0 o;
             Widget.Settle 0
               (json_outcome
                  (route cfg fs dirname up
                     (widget_catalog_request MERCHANT_ID API_KEY)))]
            Widget.init)
       = Some (if String.eqb (REQUIRED_KEY cfg) ""
                  || String.eqb API_KEY (REQUIRED_KEY cfg)
               then Widget.CatalogScreen [] ∅
               else Widget.ErrorScreen None "REQUEST_FAILED").
Proof.
  intros Hu. unfold route, handleCatalog, widget_catalog_request.
  cbn [pathname method]. cbn [String.eqb Ascii.eqb Bool.eqb negb].
  rewrite widget_request_key, Hu.
  destruct (String.eqb (REQUIRED_KEY cfg) "" || String.eqb API_KEY (REQUIRED_KEY cfg));
    cbn; eexists; split; reflexivity.
Qed.

Lemma first_open_against_the_dev_server_witness :
  UPSTREAM_BFF_BASE (Config "DEMO_KEY_123" "") = ""
  /\ exists o,
       fetch_outcome
         (route (Config "DEMO_KEY_123" "") fs_with_sibling "/srv/app" UpstreamFailed
            (widget_catalog_request "demo-merchant-1" "DEMO_KEY_123")) = Some o
       /\ option_map Widget.screen
            (Widget.run
               [Widget.ClickFab; Widget.Settle 0 o;
                Widget.Settle 0
                  (json_outcome
                     (route (Config "DEMO_KEY_123" "") fs_with_sibling "/srv/app"
                        UpstreamFailed
                        (widget_catalog_request "demo-merchant-1" "DEMO_KEY_123")))]
               Widget.init)
          = Some (Widget.CatalogScreen [] ∅).
Proof.
  split; [reflexivity|].
  exact (first_open_against_the_dev_server (Config "DEMO_KEY_123" "")
           fs_with_sibling "/srv/app" UpstreamFailed "demo-merchant-1"
           "DEMO_KEY_123" eq_refl).
Defined.

(** X25. The widget in front of the server that has no upstream: every
    purchase that is submitted ends on the error view, with the code
    [NO_UPSTREAM] when the key passes the key check and [UNAUTHORISED]
    when it does not, and the stored order is left as it was. *)
Theorem purchase_against_the_dev_server
    (cfg : config) (fs : Server.filesystem) (dirname : string)
    (up : upstream_outcome) (API_KEY : string) (payload : json)
    (st : Widget.state) (i : nat) (p : Widget.payload) :
  UPSTREAM_BFF_BASE cfg = "" ->
  Widget.pending st !! i = Some (Widget.PurchaseFetch p) ->
  exists o st',
    fetch_outcome
      (route cfg fs dirname up (widget_purchase_request API_KEY payload)) = Some o
    /\ Widget.run
         [Widget.Settle i o;
          Widget.Settle i
            (json_outcome
               (route cfg fs dirname up (widget_purchase_request API_KEY payload)))]
         st = Some st'
    /\ Widget.view st' = Widget.VError
    /\ Widget.screen st'
       = Widget.ErrorScreen None
           (if String.eqb (REQUIRED_KEY cfg) ""
               || String.eqb API_KEY (REQUIRED_KEY cfg)
            then "NO_UPSTREAM" else "UNAUTHORISED")
    /\ Widget.lastOrder st' = Widget.lastOrder st.
Proof.
  intros Hu Hi. unfold route, handlePurchase, widget_purchase_request.
  cbn [pathname method]. cbn [String.eqb Ascii.eqb Bool.eqb negb].
  rewrite widget_request_key, Hu.
  assert (Hlt : (i < length (Widget.pending st))%nat)
    by (eapply lookup_lt_Some; eauto).
  destruct (String.eqb (REQUIRED_KEY cfg) "" || String.eqb API_KEY (REQUIRED_KEY cfg));
    cbn [negb String.eqb fetch_outcome json_outcome Z.leb Z.compare andb
         Pos.compare Pos.compare_cont];
    eexists; eexists; (split; [reflexivity|]);
    cbn [Widget.run Widget.step]; unfold Widget.settle; rewrite Hi;
    cbn [Widget.pending Widget.set_pending];
    rewrite (list_lookup_insert_eq _ _ _ Hlt);
    cbn; repeat split; reflexivity.
Qed.

Lemma purchase_against_the_dev_server_witness :
  UPSTREAM_BFF_BASE (Config "" "") = ""
  /\ exists st',
       Widget.run
         [Widget.ClickSubmit "Jane Doe" "jane@acme.com" "recipient@domain.com";
          Widget.Settle 0 (Widget.FetchResponse false);
          Widget.Settle 0 (Widget.JsonParsed (error_body "NO_UPSTREAM"))]
         checkout_shown = Some st'
       /\ Widget.screen st' = Widget.ErrorScreen None "NO_UPSTREAM".
Proof.
  split; [reflexivity|].
  destruct (Widget.step
              (Widget.ClickSubmit "Jane Doe" "jane@acme.com" "recipient@domain.com")
              checkout_shown) as [st1|] eqn:Hs; [|vm_compute in Hs; discriminate Hs].
  assert (Hi : exists p, Widget.pending st1 !! 0%nat = Some (Widget.PurchaseFetch p)).
  { vm_compute in Hs. injection Hs as <-. eexists. reflexivity. }
  destruct Hi as [p Hi].
  destruct (purchase_against_the_dev_server (Config "" "") fs_with_sibling
              "/srv/app" UpstreamFailed "" (JObj []) st1 0 p eq_refl Hi)
    as (o & st' & Ho & Hr & _ & Hscr & _).
  injection Ho as <-.
  exists st'. split; [|exact Hscr].
  cbn [Widget.run]. rewrite Hs. exact Hr.
Defined.

End RelayProperties.

(** ** Decoding the request path *)

Section Decoding.
Import Helpers Server PathSpec TextSpec.

Lemma decode_plain (s : string) :
  all_chars not_percent s = true -> decodeURIComponent s = Some s.
Proof.
  induction s as [|c s IH]; [reflexivity|].
  cbn [all_chars]. intros H. apply andb_true_iff in H as [Hc Hs].
  unfold not_percent in Hc. apply negb_true_iff in Hc.
  cbn [decodeURIComponent]. rewrite Hc, (IH Hs). reflexivity.
Qed.

Lemma decode_malformed_bounded (n : nat) (p q : string) :
  (String.length p <= n)%nat -> starts_with_hex_pair q = false ->
  decodeURIComponent (p +:+ String "%" q) = None.
Proof.
  revert p. induction n as [|n IH]; intros p Hn Hq.
  - destruct p; [|cbn in Hn; lia]. rewrite append_nil.
    cbn [decodeURIComponent]. cbn [Ascii.eqb Bool.eqb]. cbn.
    destruct q as [|h [|l r]]; try reflexivity.
    cbn in Hq. destruct (JSNumber.digit_of 16 h), (JSNumber.digit_of 16 l);
      first [discriminate Hq | reflexivity].
  - destruct p as [|c p].
    { apply (IH EmptyString); [cbn; lia | exact Hq]. }
    cbn in Hn. rewrite append_cons. cbn [decodeURIComponent].
    destruct (Ascii.eqb c "%") eqn:Ec.
    + destruct p as [|h [|l p]].
      * rewrite append_nil. destruct q; reflexivity.
      * rewrite append_cons, append_nil.
        destruct (JSNumber.digit_of 16 h); reflexivity.
      * rewrite !append_cons.
        destruct (JSNumber.digit_of 16 h); [|reflexivity].
        destruct (JSNumber.digit_of 16 l); [|reflexivity].
        rewrite (IH p); [reflexivity | cbn in Hn; lia | exact Hq].
    + rewrite (IH p); [reflexivity | lia | exact Hq].
Qed.

(** X26. A request path in which some [%] is not followed by two
    hexadecimal digits cannot be decoded: [serveStatic] throws on it and
    sends no response; a path without [%] is decoded to itself. *)
Theorem malformed_escape_is_not_answered
    (fs : filesystem) (dirname p q : string) :
  starts_with_hex_pair q = false ->
  decodeURIComponent (p +:+ String "%" q) = None
  /\ serveStatic fs dirname (p +:+ String "%" q) = None
  /\ (all_chars not_percent p = true -> decodeURIComponent p = Some p).
Proof.
  intros Hq.
  assert (H : decodeURIComponent (p +:+ String "%" q) = None)
    by (apply (decode_malformed_bounded (String.length p)); [lia | exact Hq]).
  split; [exact H|]. split; [|apply decode_plain].
  unfold serveStatic. now rewrite H.
Qed.

Lemma malformed_escape_is_not_answered_witness :
  starts_with_hex_pair "zz" = false
  /\ serveStatic Scenario.fs_with_sibling "/srv/app" "/a%20b/%zz" = None.
Proof.
  split; [reflexivity|].
  destruct (malformed_escape_is_not_answered Scenario.fs_with_sibling "/srv/app"
              "/a%20b/" "zz" eq_refl) as (_ & H & _).
  exact H.
Defined.

End Decoding.

(** ** Normalized paths *)

Section Normalize.
Import Helpers Server PathSpec TextSpec.

Local Abbreviation step := (normalize_step false).

Lemma segments_slash (s : string) : segments (String "/" s) = EmptyString :: segments s.
Proof. reflexivity. Qed.

Lemma segments_not_nil (s : string) : segments s <> [].
Proof.
  destruct s as [|c s]; cbn; [discriminate|].
  destruct (Ascii.eqb c "/"); [discriminate|]. destruct (segments s); discriminate.
Qed.

Lemma segments_app_slash (a b : string) :
  segments (a +:+ String "/" b) = segments a ++ segments b.
Proof.
  induction a as [|c a IH]; [reflexivity|].
  rewrite append_cons. cbn [segments]. rewrite IH.
  destruct (Ascii.eqb c "/"); [reflexivity|].
  destruct (segments a) as [|seg more] eqn:E; [now apply segments_not_nil in E|].
  reflexivity.
Qed.

Lemma segments_name (s : string) :
  all_chars not_slash s = true -> segments s = [s].
Proof.
  induction s as [|c s IH]; [reflexivity|].
  cbn [all_chars]. intros H. apply andb_true_iff in H as [Hc Hs].
  unfold not_slash in Hc. apply negb_true_iff in Hc.
  cbn [segments]. rewrite Hc, (IH Hs). reflexivity.
Qed.

Lemma segments_slash_free (s : string) :
  Forall (fun seg => all_chars not_slash seg = true) (segments s).
Proof.
  induction s as [|c s IH]; [repeat constructor|].
  cbn [segments]. destruct (Ascii.eqb c "/") eqn:Ec.
  - constructor; [reflexivity | exact IH].
  - destruct (segments s) as [|seg more]; [repeat constructor; cbn; unfold not_slash; now rewrite Ec|].
    inversion IH as [|? ? Hseg Hmore]; subst. constructor; [|exact Hmore].
    cbn. unfold not_slash at 1. now rewrite Ec, Hseg.
Qed.

Lemma join_cons (sep p : string) (L : list string) :
  L <> [] -> JS.join sep (p :: L) = p +:+ sep +:+ JS.join sep L.
Proof. destruct L; [contradiction | reflexivity]. Qed.

Lemma is_name_slash_free (seg : string) :
  is_name seg = true -> all_chars not_slash seg = true.
Proof. unfold is_name. intros H. now apply andb_true_iff in H. Qed.

Lemma segments_join (L : list string) :
  Forall (fun seg => is_name seg = true) L -> L <> [] ->
  segments (JS.join "/" L) = L.
Proof.
  induction L as [|p L IH]; [contradiction|].
  intros HL _. inversion HL as [|? ? Hp HL']; subst.
  destruct L as [|q L].
  - cbn [JS.join]. apply segments_name. now apply is_name_slash_free.
  - rewrite join_cons by discriminate.
    change ("/" +:+ JS.join "/" (q :: L)) with (String "/" (JS.join "/" (q :: L))).
    rewrite segments_app_slash, segments_name by (now apply is_name_slash_free).
    rewrite IH; [reflexivity | exact HL' | discriminate].
Qed.

Lemma step_kept (seg : string) (st : list string) :
  kept seg = true -> step st seg = seg :: st.
Proof.
  unfold kept, normalize_step. intros H. apply negb_true_iff in H.
  apply orb_false_iff in H as [H H2]. rewrite H, H2. reflexivity.
Qed.

Lemma step_dropped (seg : string) (st : list string) :
  kept seg = false -> seg <> ".." -> step st seg = st.
Proof.
  unfold kept, normalize_step. intros H Hne. apply negb_false_iff in H.
  apply orb_true_iff in H as [H | H]; [now rewrite H|].
  apply String.eqb_eq in H. contradiction.
Qed.

Lemma fold_no_dotdot (L st : list string) :
  forallb (fun seg => negb (String.eqb seg "..")) L = true ->
  fold_left step L st = rev (List.filter kept L) ++ st.
Proof.
  revert st. induction L as [|x L IH]; intros st H; [reflexivity|].
  cbn [forallb] in H. apply andb_true_iff in H as [Hx HL].
  apply negb_true_iff, String.eqb_neq in Hx.
  cbn [fold_left List.filter]. destruct (kept x) eqn:Ek.
  - rewrite (step_kept x st Ek), (IH _ HL). cbn [rev]. now rewrite <- app_assoc.
  - rewrite (step_dropped x st Ek Hx). apply IH, HL.
Qed.

Lemma names_no_dotdot (L : list string) :
  Forall (fun seg => is_name seg = true) L ->
  forallb (fun seg => negb (String.eqb seg "..")) L = true
  /\ List.filter kept L = L.
Proof.
  induction 1 as [|x L Hx _ [IH1 IH2]]; [split; reflexivity|].
  unfold is_name in Hx. apply andb_true_iff in Hx as [Hk _].
  cbn. rewrite Hk, IH1, IH2, andb_true_r. split; [|reflexivity].
  unfold kept in Hk. apply negb_true_iff in Hk.
  apply orb_false_iff in Hk as [_ Hk]. now rewrite Hk.
Qed.

Lemma fold_names (L st : list string) :
  Forall (fun seg => is_name seg = true) L -> fold_left step L st = rev L ++ st.
Proof.
  intros HL. destruct (names_no_dotdot L HL) as [H1 H2].
  now rewrite (fold_no_dotdot L st H1), H2.
Qed.

(** The stack of [normalizeString] holds names only. *)
Lemma fold_stack_names (L st : list string) :
  Forall (fun seg => all_chars not_slash seg = true) L ->
  Forall (fun seg => is_name seg = true) st ->
  Forall (fun seg => is_name seg = true) (fold_left step L st).
Proof.
  intros HL. revert st. induction HL as [|x L Hx _ IH]; intros st Hst; [exact Hst|].
  cbn [fold_left]. apply IH. unfold normalize_step.
  destruct (String.eqb x "" || String.eqb x ".") eqn:E1; [exact Hst|].
  destruct (String.eqb x "..") eqn:E2.
  - destruct st as [|top below]; [constructor|].
    inversion Hst; subst. destruct (String.eqb top ".."); assumption.
  - constructor; [|exact Hst]. unfold is_name, kept.
    apply orb_false_iff in E1 as [E0 E1]. now rewrite E0, E1, E2, Hx.
Qed.

Lemma name_not_empty (seg : string) : is_name seg = true -> String.eqb seg "" = false.
Proof.
  unfold is_name, kept. intros H. apply andb_true_iff in H as [H _].
  apply negb_true_iff in H. apply orb_false_iff in H as [H _].
  now apply orb_false_iff in H as [H _].
Qed.

Lemma join_names_not_empty (L : list string) :
  Forall (fun seg => is_name seg = true) L -> L <> [] ->
  String.eqb (JS.join "/" L) "" = false.
Proof.
  intros HL Hne. destruct L as [|p L]; [contradiction|].
  inversion HL as [|? ? Hp _]; subst. apply name_not_empty in Hp.
  destruct p as [|c p]; [discriminate Hp|].
  destruct L; [reflexivity|]. rewrite join_cons by discriminate.
  rewrite append_cons. reflexivity.
Qed.

Lemma normalize_absolute (path : string) :
  isAbsolute path = true ->
  normalize path
  = absolute_path (rev (fold_left step (segments path) [])) (ends_with_slash path).
Proof.
  intros Ha. unfold normalize, normalizeString. rewrite Ha. cbn [negb].
  destruct path as [|c path]; [discriminate Ha|]. cbn [String.eqb].
  set (names := rev (fold_left step (segments (String c path)) [])).
  assert (Hn : Forall (fun seg => is_name seg = true) names).
  { unfold names. apply Forall_rev. apply fold_stack_names; [|constructor].
    apply segments_slash_free. }
  destruct names as [|n names']; [reflexivity|].
  rewrite (join_names_not_empty (n :: names') Hn) by discriminate.
  unfold absolute_path.
  destruct (ends_with_slash (String c path)); reflexivity.
Qed.


Lemma append_empty_r (s : string) : s +:+ EmptyString = s.
Proof. induction s as [|c s IH]; [reflexivity|]. rewrite append_cons. now f_equal. Qed.

Lemma ends_with_slash_app (a b : string) :
  b <> EmptyString -> ends_with_slash (a +:+ b) = ends_with_slash b.
Proof.
  intros Hb. induction a as [|c a IH]; [reflexivity|].
  rewrite append_cons. cbn [ends_with_slash].
  destruct (a +:+ b) as [|d r] eqn:E; [|exact IH].
  destruct a; [rewrite append_nil in E; contradiction | rewrite append_cons in E; discriminate E].
Qed.

Lemma ends_with_slash_name (s : string) :
  all_chars not_slash s = true -> ends_with_slash s = false.
Proof.
  induction s as [|c s IH]; [reflexivity|].
  cbn [all_chars]. intros H. apply andb_true_iff in H as [Hc Hs].
  unfold not_slash in Hc. apply negb_true_iff in Hc.
  cbn [ends_with_slash]. destruct s; [exact Hc | exact (IH Hs)].
Qed.

Lemma ends_with_slash_join (L : list string) :
  Forall (fun seg => is_name seg = true) L -> L <> [] ->
  ends_with_slash (JS.join "/" L) = false.
Proof.
  induction L as [|p L IH]; [contradiction|]. intros HL _.
  inversion HL as [|? ? Hp HL']; subst.
  destruct L as [|q L].
  - cbn [JS.join]. apply ends_with_slash_name. now apply is_name_slash_free.
  - rewrite join_cons by discriminate.
    rewrite ends_with_slash_app by discriminate.
    change ("/" +:+ JS.join "/" (q :: L)) with (String "/" (JS.join "/" (q :: L))).
    pose proof (join_names_not_empty (q :: L) HL' ltac:(discriminate)) as Hne.
    pose proof (IH HL' ltac:(discriminate)) as IH'.
    cbn [ends_with_slash]. destruct (JS.join "/" (q :: L)); [discriminate Hne | exact IH'].
Qed.

Lemma absolute_path_is_absolute (L : list string) (tr : bool) :
  isAbsolute (absolute_path L tr) = true.
Proof. destruct L; reflexivity. Qed.

Lemma segments_absolute_path (L : list string) (tr : bool) :
  Forall (fun seg => is_name seg = true) L ->
  segments (absolute_path L tr)
  = EmptyString :: match L with
                   | [] => [EmptyString]
                   | _ => L ++ (if tr then [EmptyString] else [])
                   end.
Proof.
  intros HL. destruct L as [|p L]; [reflexivity|].
  unfold absolute_path.
  change ("/" +:+ ?x) with (String "/" x). rewrite segments_slash. f_equal.
  destruct tr.
  - change (JS.join "/" (p :: L) +:+ "/")
      with (JS.join "/" (p :: L) +:+ String "/" EmptyString).
    rewrite segments_app_slash, segments_join by (first [exact HL | discriminate]).
    reflexivity.
  - rewrite segments_join by (first [exact HL | discriminate]).
    now rewrite app_nil_r.
Qed.

Lemma step_empty (st : list string) : step st EmptyString = st.
Proof. reflexivity. Qed.

(** Reading a normal form back gives the names it was made of. *)
Lemma fold_absolute_path (L M : list string) (tr : bool) :
  Forall (fun seg => is_name seg = true) L ->
  fold_left step (segments (absolute_path L tr) ++ M) []
  = fold_left step M (rev L).
Proof.
  intros HL. rewrite (segments_absolute_path L tr HL), fold_left_app.
  f_equal. cbn [fold_left]. rewrite step_empty.
  destruct L as [|p L]; [reflexivity|].
  rewrite fold_left_app, (fold_names (p :: L) [] HL), app_nil_r.
  destruct tr; reflexivity.
Qed.

Lemma ends_with_slash_absolute_path (L : list string) (tr : bool) :
  Forall (fun seg => is_name seg = true) L -> L <> [] ->
  ends_with_slash (absolute_path L tr) = tr.
Proof.
  intros HL Hne. destruct L as [|p L]; [contradiction|]. unfold absolute_path.
  pose proof (join_names_not_empty (p :: L) HL Hne) as Hj.
  destruct tr.
  - rewrite ends_with_slash_app; [|destruct (JS.join "/" (p :: L)); discriminate].
    rewrite ends_with_slash_app by discriminate. reflexivity.
  - rewrite ends_with_slash_app; [now apply ends_with_slash_join|].
    intros E. rewrite E in Hj. discriminate Hj.
Qed.

(** [path.normalize] leaves a normalized absolute path as it is. *)
Lemma normalize_absolute_path (L : list string) (tr : bool) :
  Forall (fun seg => is_name seg = true) L ->
  normalize (absolute_path L tr) = absolute_path L tr.
Proof.
  intros HL. rewrite normalize_absolute by apply absolute_path_is_absolute.
  rewrite <- (app_nil_r (segments _)), (fold_absolute_path L [] tr HL).
  cbn [fold_left]. rewrite rev_involutive.
  destruct L as [|p L]; [reflexivity|].
  rewrite ends_with_slash_absolute_path; [reflexivity | exact HL | discriminate].
Qed.

Lemma absolute_path_not_empty (L : list string) (tr : bool) :
  String.eqb (absolute_path L tr) "" = false.
Proof. destruct L; reflexivity. Qed.

(** Joining a normalized absolute path with a relative one. *)
Lemma join_absolute_path (L : list string) (tr : bool) (P : string) :
  Forall (fun seg => is_name seg = true) L -> L <> [] ->
  join (absolute_path L tr) P
  = absolute_path (rev (fold_left step (segments P) (rev L)))
      (if String.eqb P "" then tr else ends_with_slash P).
Proof.
  intros HL Hne. unfold join. rewrite absolute_path_not_empty.
  destruct (String.eqb P "") eqn:EP.
  - apply String.eqb_eq in EP. subst P. rewrite absolute_path_not_empty.
    rewrite (normalize_absolute_path L tr HL). cbn [segments fold_left].
    rewrite step_empty, rev_involutive. reflexivity.
  - assert (Hne' : String.eqb (absolute_path L tr +:+ "/" +:+ P) "" = false).
    { destruct L; [contradiction|]. reflexivity. }
    rewrite Hne'.
    change ("/" +:+ P) with (String "/" P).
    rewrite normalize_absolute.
    2:{ destruct L; [contradiction|]. reflexivity. }
    rewrite segments_app_slash, (fold_absolute_path L (segments P) tr HL).
    rewrite ends_with_slash_app by discriminate.
    f_equal. cbn [ends_with_slash]. destruct P; [discriminate EP | reflexivity].
Qed.

Lemma startsWith_app (p s : string) : startsWith p (p +:+ s) = true.
Proof.
  induction p as [|c p IH]; [reflexivity|].
  rewrite append_cons. cbn [startsWith]. now rewrite Ascii.eqb_refl, IH.
Qed.

Lemma join_app (L K : list string) :
  L <> [] -> K <> [] ->
  JS.join "/" (L ++ K) = JS.join "/" L +:+ "/" +:+ JS.join "/" K.
Proof.
  intros HL HK. induction L as [|p L IH]; [contradiction|].
  destruct L as [|q L].
  - cbn [app]. now rewrite join_cons.
  - change ((p :: q :: L) ++ K) with (p :: (q :: L) ++ K).
    rewrite join_cons by discriminate.
    rewrite IH by discriminate.
    rewrite (join_cons "/" p (q :: L)) by discriminate.
    now rewrite !append_assoc.
Qed.

Lemma absolute_path_app (L K : list string) (tr : bool) :
  L <> [] ->
  absolute_path (L ++ K) tr = absolute_path L false +:+ below K tr.
Proof.
  intros HL. destruct K as [|k K].
  - rewrite app_nil_r. destruct L as [|p L]; [contradiction|].
    unfold absolute_path, below. destruct tr.
    + now rewrite append_assoc.
    + now rewrite append_empty_r.
  - destruct L as [|p L]; [contradiction|].
    unfold absolute_path at 1. cbn [app].
    change (p :: L ++ k :: K) with ((p :: L) ++ k :: K).
    rewrite join_app by discriminate.
    unfold absolute_path, below.
    destruct tr; rewrite ?append_assoc, ?append_empty_r; reflexivity.
Qed.

Lemma within_root_below (root : string) (K : list string) (tr : bool) :
  within_root root (root +:+ below K tr) = true.
Proof.
  unfold within_root.
  assert (H : below K tr = "" \/ exists r, below K tr = "/" +:+ r).
  { destruct K as [|k K]; [destruct tr; [right; now exists ""|now left]|].
    right. unfold below. eexists. reflexivity. }
  destruct H as [-> | [r ->]].
  - now rewrite append_empty_r, String.eqb_refl.
  - rewrite <- append_assoc, startsWith_app. apply orb_true_r.
Qed.

Lemma kept_segments_are_names (path : string) :
  Forall (fun seg => is_name seg = true) (List.filter kept (segments path)).
Proof.
  pose proof (segments_slash_free path) as H.
  induction H as [|x L Hx _ IH]; [constructor|].
  cbn [List.filter]. destruct (kept x) eqn:Ek; [|exact IH].
  constructor; [|exact IH]. unfold is_name. now rewrite Ek, Hx.
Qed.

Lemma stack_names (path : string) :
  Forall (fun seg => is_name seg = true)
         (rev (fold_left step (segments path) [])).
Proof.
  apply Forall_rev. apply fold_stack_names; [apply segments_slash_free | constructor].
Qed.

(** [PUBLIC_DIR] is the directory [public] below the normalized [__dirname]. *)
Lemma PUBLIC_DIR_absolute (dirname : string) :
  isAbsolute dirname = true ->
  PUBLIC_DIR dirname
  = absolute_path (rev (fold_left step (segments dirname) []) ++ ["public"]) false.
Proof.
  intros Habs. unfold PUBLIC_DIR, join.
  destruct dirname as [|c d]; [discriminate Habs|].
  cbn [String.eqb]. rewrite append_cons. cbn [String.eqb].
  rewrite <- append_cons.
  change ("/" +:+ "public") with (String "/" "public").
  rewrite normalize_absolute by (rewrite append_cons; exact Habs).
  rewrite segments_app_slash, fold_left_app.
  rewrite ends_with_slash_app by discriminate.
  reflexivity.
Qed.

(** The path [serveStatic] looks up, for a request without [..] segments. *)
Lemma filePath_below_public_dir (dirname pathname : string) :
  isAbsolute dirname = true ->
  no_dotdot pathname = true ->
  let root := rev (fold_left step (segments dirname) []) ++ ["public"] in
  let K := List.filter kept (segments pathname) in
  let tr := if String.eqb pathname "" then false else ends_with_slash pathname in
  Forall (fun seg => is_name seg = true) (root ++ K)
  /\ normalize (join (PUBLIC_DIR dirname) pathname) = absolute_path (root ++ K) tr.
Proof.
  intros Habs Hdd root K tr.
  assert (Hroot : Forall (fun seg => is_name seg = true) root).
  { apply Forall_app. split; [apply stack_names | repeat constructor]. }
  assert (Hne : root <> []).
  { unfold root. intros E. apply app_eq_nil in E as [_ E]. discriminate E. }
  assert (HK : Forall (fun seg => is_name seg = true) (root ++ K)).
  { apply Forall_app. split; [exact Hroot | apply kept_segments_are_names]. }
  split; [exact HK|].
  rewrite (PUBLIC_DIR_absolute dirname Habs). fold root.
  rewrite (join_absolute_path root false pathname Hroot Hne).
  rewrite (fold_no_dotdot (segments pathname) (rev root) Hdd).
  rewrite rev_app_distr, !rev_involutive. fold K.
  apply (normalize_absolute_path (root ++ K) _ HK).
Qed.

(** X27. Path traversal needs a [..] segment: called with an absolute
    [__dirname] and a request path that decodes to one without [..]
    segments, [serveStatic] never answers 403, and whatever it streams is
    [PUBLIC_DIR] itself or lies below it. *)
Theorem serveStatic_without_dotdot_stays_in_public_dir
    (fs : filesystem) (dirname url_pathname decoded : string) :
  isAbsolute dirname = true ->
  decodeURIComponent url_pathname = Some decoded ->
  no_dotdot decoded = true ->
  match serveStatic fs dirname url_pathname with
  | Some NotFound404 => True
  | Some (Stream200 filePath) =>
      within_root (PUBLIC_DIR dirname) filePath = true
      /\ fs filePath <> None /\ fs filePath <> Some IsDirectory
  | Some Forbidden403 | None => False
  end.
Proof.
  intros Habs Hdec Hdd. unfold serveStatic. rewrite Hdec.
  set (pathname := if String.eqb decoded "/" then "/index.html" else decoded).
  assert (Hdd' : no_dotdot pathname = true).
  { unfold pathname. destruct (String.eqb decoded "/"); [reflexivity | exact Hdd]. }
  destruct (filePath_below_public_dir dirname pathname Habs Hdd') as [HK ->].
  set (root := rev (fold_left step (segments dirname) []) ++ ["public"]) in *.
  set (K := List.filter kept (segments pathname)) in *.
  set (tr := if String.eqb pathname "" then false else ends_with_slash pathname).
  assert (Hne : root <> []).
  { unfold root. intros E. apply app_eq_nil in E as [_ E]. discriminate E. }
  rewrite (PUBLIC_DIR_absolute dirname Habs). fold root.
  rewrite (absolute_path_app root K tr Hne), startsWith_app.
  cbn [negb].
  rewrite <- (absolute_path_app root K tr Hne).
  destruct (fs (absolute_path (root ++ K) tr)) as [[| |]|] eqn:Efs; [| | |exact I].
  - rewrite (absolute_path_app root K tr Hne), within_root_below.
    rewrite <- (absolute_path_app root K tr Hne), Efs. repeat split; discriminate.
  - assert (HneK : root ++ K <> []).
    { intros E. apply app_eq_nil in E as [E _]. exact (Hne E). }
    rewrite (join_absolute_path (root ++ K) tr "index.html" HK HneK).
    change (fold_left step (segments "index.html") (rev (root ++ K)))
      with ("index.html" :: rev (root ++ K)).
    cbn [rev String.eqb Ascii.eqb Bool.eqb ends_with_slash].
    rewrite rev_involutive, <- app_assoc.
    destruct (fs (absolute_path (root ++ K ++ ["index.html"]) false))
      as [[| |]|] eqn:Eidx; try exact I.
    rewrite (absolute_path_app root (K ++ ["index.html"]) false Hne), within_root_below.
    rewrite <- (absolute_path_app root (K ++ ["index.html"]) false Hne), Eidx.
    repeat split; discriminate.
  - rewrite (absolute_path_app root K tr Hne), within_root_below.
    rewrite <- (absolute_path_app root K tr Hne), Efs. repeat split; discriminate.
Qed.

Lemma serveStatic_without_dotdot_stays_in_public_dir_witness :
  isAbsolute "/srv/app" = true
  /\ decodeURIComponent "/" = Some "/"
  /\ no_dotdot "/" = true
  /\ match serveStatic Scenario.fs_with_sibling "/srv/app" "/" with
     | Some NotFound404 => True
     | Some (Stream200 filePath) =>
         within_root (PUBLIC_DIR "/srv/app") filePath = true
         /\ Scenario.fs_with_sibling filePath <> None
         /\ Scenario.fs_with_sibling filePath <> Some IsDirectory
     | Some Forbidden403 | None => False
     end.
Proof.
  split; [reflexivity|]. split; [reflexivity|]. split; [reflexivity|].
  exact (serveStatic_without_dotdot_stays_in_public_dir
           Scenario.fs_with_sibling "/srv/app" "/" "/" eq_refl eq_refl eq_refl).
Defined.

(** X28. The [path.normalize] around [path.join] in [serveStatic] changes
    nothing: with an absolute [__dirname], the joined path is already
    normalized, whatever the request path is. *)
Theorem serveStatic_normalize_is_redundant (dirname pathname : string) :
  isAbsolute dirname = true ->
  normalize (join (PUBLIC_DIR dirname) pathname) = join (PUBLIC_DIR dirname) pathname.
Proof.
  intros Habs. rewrite (PUBLIC_DIR_absolute dirname Habs).
  set (root := rev (fold_left step (segments dirname) []) ++ ["public"]).
  assert (Hroot : Forall (fun seg => is_name seg = true) root).
  { apply Forall_app. split; [apply stack_names | repeat constructor]. }
  assert (Hne : root <> []).
  { unfold root. intros E. apply app_eq_nil in E as [_ E]. discriminate E. }
  rewrite (join_absolute_path root false pathname Hroot Hne).
  apply normalize_absolute_path. apply Forall_rev.
  apply fold_stack_names; [apply segments_slash_free | now apply Forall_rev].
Qed.

Lemma serveStatic_normalize_is_redundant_witness :
  isAbsolute "/srv/app" = true
  /\ normalize (join (PUBLIC_DIR "/srv/app") "/a/../../b/")
     = join (PUBLIC_DIR "/srv/app") "/a/../../b/".
Proof.
  split; [reflexivity|].
  exact (serveStatic_normalize_is_redundant "/srv/app" "/a/../../b/" eq_refl).
Defined.

End Normalize.
